(** * CHULUBME engine core: the memory subsystem of [code/engine/core/memory.h]

    A shallow embedding of the allocator classes, the [MemoryManager]
    registry and the [AllocatedPtr] ownership wrapper, with the properties
    the design document states about them.

    Conventions.
    - [size_t] is a 64-bit unsigned integer, held in [Z]; arithmetic the
      header performs on it is written with its wrap-around ([wrap]).
    - An address ([void*], [T*], [uint8_t*]) is a [Z]; [nullptr] is [0].
    - The header declares the allocator member functions; the bodies that
      live in the translation unit are not part of the sources at hand and
      are modelled from the design document (each such definition says so).
      Everything defined inline in the header is transcribed from it. *)

From Stdlib Require Import ZArith Lia List.
From stdpp Require Import base decidable countable numbers option list gmap.

Local Open Scope Z_scope.

(** ** [size_t] *)

Definition size_t_bits : Z := 64.
Definition size_t_modulus : Z := 2 ^ size_t_bits.

(** Reduction of a mathematical integer to the value a [size_t] holds. *)
Definition wrap (x : Z) : Z := x mod size_t_modulus.

Definition is_size_t (x : Z) : Prop := 0 <= x < size_t_modulus.

Definition nullptr : Z := 0.

(** ** Alignment arithmetic shared by the bump allocators *)

(** Modelled from the spec: the natural alignment used when a caller passes
    [alignment = 0] ("use the natural alignment for the platform word
    size"); the constant itself is not in the header.  The word of the
    64-bit platform [size_t] is modelled for has 8 bytes. *)
Definition natural_alignment : Z := 8.

(** Modelled from the spec: the alignment a request is served with. *)
Definition effective_alignment (alignment : Z) : Z :=
  if alignment =? 0 then natural_alignment else alignment.

(** Modelled from the spec: the padding that moves [address] forward to the
    next multiple of [alignment] ("the next aligned offset >= current
    offset"). *)
Definition alignment_padding (address alignment : Z) : Z :=
  (alignment - address mod alignment) mod alignment.

(** ** LinearAllocator *)

Module LinearAllocator.

(** The data members of [class LinearAllocator]. *)
Record t := mk {
  m_memory : Z;
  m_size : Z;
  m_offset : Z;
  m_ownsMemory : bool
}.

(** [size_t GetAllocatedSize() const override { return m_offset; }] *)
Definition GetAllocatedSize (a : t) : Z := m_offset a.

(** [size_t GetTotalSize() const override { return m_size; }] *)
Definition GetTotalSize (a : t) : Z := m_size a.

(** Modelled from the spec: the body of [LinearAllocator::Allocate] is in
    the translation unit, which is not among the sources.  "Computes the
    next aligned offset >= current offset, reserves [size] bytes there,
    fails with an out-of-memory condition if the reserved range would
    exceed the buffer"; "allocation advances [offset] by
    [size + alignment padding]".  The returned address must be aligned,
    so the padding is computed on the address [m_memory + m_offset].
    [None] is the failure (a null result). *)
Definition Allocate (a : t) (size alignment : Z) : option Z * t :=
  let align := effective_alignment alignment in
  let padding := alignment_padding (m_memory a + m_offset a) align in
  if m_offset a + padding + size <=? m_size a
  then (Some (m_memory a + m_offset a + padding),
        mk (m_memory a) (m_size a) (m_offset a + padding + size)
           (m_ownsMemory a))
  else (None, a).

(** Modelled from the spec: "freeing a single pointer is a documented
    no-op". *)
Definition Free (a : t) (ptr : Z) : t := a.

(** Modelled from the spec: "[Reset()] sets [offset = 0]". *)
Definition Reset (a : t) : t :=
  mk (m_memory a) (m_size a) 0 (m_ownsMemory a).



(** One executed call of [Allocate]: the request, the allocator before
    and after, and what was returned. *)
Record call := mk_call {
  call_size : Z;
  call_alignment : Z;
  call_before : t;
  call_result : option Z;
  call_after : t
}.

(** A sequence of [Allocate] calls on one allocator, oldest first. *)
Fixpoint allocate_all (a : t) (reqs : list (Z * Z)) : list call * t :=
  match reqs with
  | [] => ([], a)
  | (size, alignment) :: reqs' =>
      let '(r, a') := Allocate a size alignment in
      let '(cs, a'') := allocate_all a' reqs' in
      (mk_call size alignment a r a' :: cs, a'')
  end.





End LinearAllocator.

(** ** PoolAllocator *)

Module PoolAllocator.

(** The data members of [class PoolAllocator].  [m_freeList] is the head
    of an intrusive singly linked list threaded through the free blocks;
    it is held here as the chain read out from the head, the addresses of
    the free blocks in list order ([[]] is the null head). *)
Record t := mk {
  m_memory : Z;
  m_blockSize : Z;
  m_blockCount : Z;
  m_freeBlocks : Z;
  m_freeList : list Z;
  m_ownsMemory : bool
}.

(** [size_t GetAllocatedSize() const override
      { return (m_blockCount - m_freeBlocks) * m_blockSize; }] *)
Definition GetAllocatedSize (a : t) : Z :=
  wrap (wrap (m_blockCount a - m_freeBlocks a) * m_blockSize a).

(** [size_t GetTotalSize() const override
      { return m_blockCount * m_blockSize; }] *)
Definition GetTotalSize (a : t) : Z :=
  wrap (m_blockCount a * m_blockSize a).

(** The addresses of the blocks of a pool, in address order. *)
Definition block_addresses (memory blockSize : Z) (blockCount : nat) : list Z :=
  List.map (fun i => memory + Z.of_nat i * blockSize) (seq 0 blockCount).

(** Modelled from the spec: the constructor over caller-supplied or owned
    memory "threads every block into one free list". *)
Definition create (memory blockSize blockCount : Z) (owns : bool) : t :=
  mk memory blockSize blockCount blockCount
     (block_addresses memory blockSize (Z.to_nat blockCount)) owns.

(** Modelled from the spec: [PoolAllocator::Allocate] "fails if
    [size > blockSize] or the free list is empty; otherwise pops the head
    of the free list and returns it". *)
Definition Allocate (a : t) (size alignment : Z) : option Z * t :=
  if m_blockSize a <? size then (None, a)
  else match m_freeList a with
       | [] => (None, a)
       | p :: rest =>
           (Some p,
            mk (m_memory a) (m_blockSize a) (m_blockCount a)
               (wrap (m_freeBlocks a - 1)) rest (m_ownsMemory a))
       end.

(** Modelled from the spec: [PoolAllocator::Free] "pushes [ptr] back onto
    the head of the free list - no validation that [ptr] actually belongs
    to this pool is performed". *)
Definition Free (a : t) (ptr : Z) : t :=
  mk (m_memory a) (m_blockSize a) (m_blockCount a)
     (wrap (m_freeBlocks a + 1)) (ptr :: m_freeList a) (m_ownsMemory a).

(** The fields hold [size_t] values. *)
Definition in_range (a : t) : Prop :=
  is_size_t (m_blockSize a) /\ is_size_t (m_blockCount a)
  /\ is_size_t (m_freeBlocks a).

(** The invariant of the design document. *)
Definition invariant (a : t) : Prop := m_freeBlocks a <= m_blockCount a.

End PoolAllocator.

(** ** StackAllocator *)

Module StackAllocator.

(** [struct Marker { size_t offset; size_t adjustment; }] *)
Record Marker := mk_marker {
  offset : Z;
  adjustment : Z
}.

(** The data members of [class StackAllocator], and [m_adjustment]: the
    alignment padding recorded by the latest [Allocate].  The header has
    no member for it (the translation unit keeps it where [Free] and
    [GetMarker] find it); the model holds it beside the offset. *)
Record t := mk {
  m_memory : Z;
  m_size : Z;
  m_offset : Z;
  m_ownsMemory : bool;
  m_adjustment : Z
}.

(** [size_t GetAllocatedSize() const override { return m_offset; }] *)
Definition GetAllocatedSize (a : t) : Z := m_offset a.

(** [size_t GetTotalSize() const override { return m_size; }] *)
Definition GetTotalSize (a : t) : Z := m_size a.

(** Modelled from the spec: [StackAllocator::Allocate] "mirrors the linear
    allocator but additionally records the alignment padding used so it
    can be undone". *)
Definition Allocate (a : t) (size alignment : Z) : option Z * t :=
  let align := effective_alignment alignment in
  let padding := alignment_padding (m_memory a + m_offset a) align in
  if m_offset a + padding + size <=? m_size a
  then (Some (m_memory a + m_offset a + padding),
        mk (m_memory a) (m_size a) (m_offset a + padding + size)
           (m_ownsMemory a) padding)
  else (None, a).

(** Modelled from the spec: [StackAllocator::Free] "only supports undoing
    the single most recent allocation": the offset goes back to where that
    block's padding began.  What an out-of-order free does is left open by
    the design document; the model applies the same arithmetic to it. *)
Definition Free (a : t) (ptr : Z) : t :=
  mk (m_memory a) (m_size a) (ptr - m_memory a - m_adjustment a)
     (m_ownsMemory a) 0.

(** Modelled from the spec: "[GetMarker()] captures
    [(offset, pendingAdjustment)]". *)
Definition GetMarker (a : t) : Marker :=
  mk_marker (m_offset a) (m_adjustment a).

(** Modelled from the spec: "[FreeToMarker(marker)] restores [offset] to
    the marker's value". *)
Definition FreeToMarker (a : t) (marker : Marker) : t :=
  mk (m_memory a) (m_size a) (offset marker) (m_ownsMemory a)
     (m_adjustment a).

(** Modelled from the spec: [Reset()] frees all memory. *)
Definition Reset (a : t) : t :=
  mk (m_memory a) (m_size a) 0 (m_ownsMemory a) 0.

(** A sequence of [Allocate] calls, oldest first: the results and the
    allocator they leave. *)
Fixpoint allocate_all (a : t) (reqs : list (Z * Z)) : list (option Z) * t :=
  match reqs with
  | [] => ([], a)
  | (size, alignment) :: reqs' =>
      let '(r, a') := Allocate a size alignment in
      let '(rs, a'') := allocate_all a' reqs' in
      (r :: rs, a'')
  end.

End StackAllocator.

(** ** The allocator interface *)

(** [class Allocator]: the four pure virtual member functions.  A failed
    [Allocate] is [None]. *)
Class Allocator (A : Type) := {
  Allocate : A -> Z -> Z -> option Z * A;
  Free : A -> Z -> A;
  GetAllocatedSize : A -> Z;
  GetTotalSize : A -> Z
}.

#[export] Instance LinearAllocator_Allocator : Allocator LinearAllocator.t := {
  Allocate := LinearAllocator.Allocate;
  Free := LinearAllocator.Free;
  GetAllocatedSize := LinearAllocator.GetAllocatedSize;
  GetTotalSize := LinearAllocator.GetTotalSize
}.

#[export] Instance PoolAllocator_Allocator : Allocator PoolAllocator.t := {
  Allocate := PoolAllocator.Allocate;
  Free := PoolAllocator.Free;
  GetAllocatedSize := PoolAllocator.GetAllocatedSize;
  GetTotalSize := PoolAllocator.GetTotalSize
}.

#[export] Instance StackAllocator_Allocator : Allocator StackAllocator.t := {
  Allocate := StackAllocator.Allocate;
  Free := StackAllocator.Free;
  GetAllocatedSize := StackAllocator.GetAllocatedSize;
  GetTotalSize := StackAllocator.GetTotalSize
}.

(** What a [std::unique_ptr<Allocator>] owns: an object of some class that
    implements the interface.  Calls through it are virtual calls. *)
Record allocator := pack {
  carrier : Type;
  carrier_Allocator : Allocator carrier;
  object : carrier
}.
Arguments pack {carrier carrier_Allocator} object.

Definition allocator_Allocate (a : allocator) (size alignment : Z)
  : option Z * allocator :=
  let '(r, o) := @Allocate _ (carrier_Allocator a) (object a) size alignment in
  (r, @pack _ (carrier_Allocator a) o).

Definition allocator_Free (a : allocator) (ptr : Z) : allocator :=
  @pack _ (carrier_Allocator a) (@Free _ (carrier_Allocator a) (object a) ptr).

Definition allocator_GetAllocatedSize (a : allocator) : Z :=
  @GetAllocatedSize _ (carrier_Allocator a) (object a).

Definition allocator_GetTotalSize (a : allocator) : Z :=
  @GetTotalSize _ (carrier_Allocator a) (object a).

(** ** MemoryManager *)

(** [enum class AllocatorType { Default, Linear, Pool, Stack }] *)
Inductive AllocatorType := Default | Linear | Pool | Stack.

#[export] Instance AllocatorType_eq_dec : EqDecision AllocatorType.
Proof. solve_decision. Defined.

Definition AllocatorType_to_nat (k : AllocatorType) : nat :=
  match k with Default => 0 | Linear => 1 | Pool => 2 | Stack => 3 end%nat.

Definition AllocatorType_of_nat (n : nat) : AllocatorType :=
  match n with
  | O => Default | S O => Linear | S (S O) => Pool | _ => Stack
  end.

#[export] Instance AllocatorType_countable : Countable AllocatorType.
Proof.
  apply (inj_countable' AllocatorType_to_nat AllocatorType_of_nat).
  intros []; reflexivity.
Defined.

Module MemoryManager.

(** [struct MemoryStats] *)
Record MemoryStats := mk_stats {
  totalAllocated : Z;
  totalReserved : Z;
  allocatorUsage : gmap AllocatorType Z
}.

Section WithSystemAllocator.
(** The ambient system allocator ([malloc]/[free]) behind the [Default]
    kind is outside the repository: it is a parameter. *)
Context {Heap : Type}.
Variable malloc : Z -> Heap -> Z * Heap.
Variable free : Z -> Heap -> Heap.

(** The data members of [class MemoryManager] ([m_mutex] guards them and
    has no state of its own in a sequential run), and the state of the
    system allocator. *)
Record t := mk {
  m_allocators : gmap AllocatorType allocator;
  system_heap : Heap
}.

(** Modelled from the spec: [MemoryManager::Allocate] dispatches to the
    allocator registered for the kind; "[Allocate]/[Free] with
    [kind = Default] bypass the strategy table and use the ambient
    system allocator directly".  The result is a [void*]: [nullptr] on
    failure or when no allocator is registered for the kind. *)
Definition Allocate (type : AllocatorType) (size alignment : Z) (m : t)
  : Z * t :=
  match type with
  | Default =>
      let '(p, h) := malloc size (system_heap m) in
      (p, mk (m_allocators m) h)
  | _ =>
      match m_allocators m !! type with
      | Some a =>
          let '(r, a') := allocator_Allocate a size alignment in
          (default nullptr r,
           mk (<[type := a']> (m_allocators m)) (system_heap m))
      | None => (nullptr, m)
      end
  end.

(** Modelled from the spec: [MemoryManager::Free], the same dispatch. *)
Definition Free (type : AllocatorType) (ptr : Z) (m : t) : t :=
  match type with
  | Default => mk (m_allocators m) (free ptr (system_heap m))
  | _ =>
      match m_allocators m !! type with
      | Some a =>
          mk (<[type := allocator_Free a ptr]> (m_allocators m))
             (system_heap m)
      | None => m
      end
  end.

(** Modelled from the spec: [MemoryManager::GetAllocator]. *)
Definition GetAllocator (type : AllocatorType) (m : t) : option allocator :=
  m_allocators m !! type.

(** Modelled from the spec: [MemoryManager::RegisterAllocator] puts the
    allocator in the registry, "replacing any prior allocator for that
    kind". *)
Definition RegisterAllocator (type : AllocatorType) (a : allocator) (m : t)
  : t :=
  mk (<[type := a]> (m_allocators m)) (system_heap m).

(** Modelled from the spec: [MemoryManager::Shutdown] destroys the
    registered allocators. *)
Definition Shutdown (m : t) : t := mk ∅ (system_heap m).

(** One step of the loop of [GetMemoryStats] over the registry. *)
Definition account (type : AllocatorType) (a : allocator)
           (stats : MemoryStats) : MemoryStats :=
  mk_stats (wrap (totalAllocated stats + allocator_GetAllocatedSize a))
           (wrap (totalReserved stats + allocator_GetTotalSize a))
           (<[type := allocator_GetAllocatedSize a]> (allocatorUsage stats)).

(** Modelled from the spec: [MemoryManager::GetMemoryStats] "reports
    aggregate usage statistics"
    [{ totalAllocated, totalReserved, perKindUsage: kind -> bytes }]:
    every registered allocator is asked for its allocated and total
    size; the per-kind entry is the former, the totals accumulate. *)
Definition GetMemoryStats (m : t) : MemoryStats :=
  map_fold account (mk_stats 0 0 ∅) (m_allocators m).

End WithSystemAllocator.

(** The sum, as a [size_t], of the per-kind usage entries. *)
Definition usage_sum (usage : gmap AllocatorType Z) : Z :=
  map_fold (fun _ v acc => wrap (acc + v)) 0 usage.

(** The same sum over the integers. *)
Definition usage_total (usage : gmap AllocatorType Z) : Z :=
  map_fold (fun _ v acc => acc + v) 0 usage.

(** The public operations that change a manager. *)
Inductive operation :=
| OpAllocate (type : AllocatorType) (size alignment : Z)
| OpFree (type : AllocatorType) (ptr : Z)
| OpRegisterAllocator (type : AllocatorType) (a : allocator)
| OpShutdown.

Definition perform {Heap} (malloc : Z -> Heap -> Z * Heap)
           (free : Z -> Heap -> Heap) (o : operation) (m : @t Heap) : @t Heap :=
  match o with
  | OpAllocate type size alignment => (Allocate malloc type size alignment m).2
  | OpFree type ptr => Free free type ptr m
  | OpRegisterAllocator type a => RegisterAllocator type a m
  | OpShutdown => Shutdown m
  end.

End MemoryManager.

(** ** AllocatedPtr *)

Module AllocatedPtr.

(** What a call does besides changing the wrappers: the calls it makes on
    the manager and on the element type, in the order it makes them. *)
Inductive event (Args : Type) :=
| EAllocate (type : AllocatorType) (size : Z) (result : Z)
| EFree (type : AllocatorType) (ptr : Z)
| EConstruct (ptr : Z) (args : Args)
| EDestroy (ptr : Z).
Arguments EAllocate {Args}.
Arguments EFree {Args}.
Arguments EConstruct {Args}.
Arguments EDestroy {Args}.

(** How a call ends: it returns, an exception propagates out of it, or
    its behaviour is undefined (a member function called on an object
    that is not alive, a value constructed at the null address). *)
Inductive outcome (A : Type) :=
| Returned (a : A)
| Thrown
| Undefined.
Arguments Returned {A}.
Arguments Thrown {A}.
Arguments Undefined {A}.

(** The program state the wrappers live in: the manager singleton, the
    wrapper objects that are alive (each identified by its own address,
    the [this] of its member functions, and holding its [m_ptr]), and the
    effects so far, oldest first. *)
Record world (Mgr Args : Type) := mk_world {
  manager : Mgr;
  wrappers : gmap nat Z;
  effects : list (event Args)
}.
Arguments mk_world {Mgr Args}.
Arguments manager {Mgr Args}.
Arguments wrappers {Mgr Args}.
Arguments effects {Mgr Args}.

Section WithElementType.
(** [MemoryManager::Instance()] with its [Allocate] and [Free]. *)
Context {Mgr : Type}.
Variable mm_Allocate : AllocatorType -> Z -> Z -> Mgr -> Z * Mgr.
Variable mm_Free : AllocatorType -> Z -> Mgr -> Mgr.
(** The template parameters [T] and [Type]: of [T], its size, the
    argument lists of its constructors and which of them throw. *)
Context {Args : Type}.
Variable T_throws : Args -> bool.
Variable sizeof_T : Z.
Variable Type_ : AllocatorType.

Definition M (A : Type) : Type :=
  world Mgr Args -> outcome A * world Mgr Args.

Definition ret {A} (a : A) : M A := fun w => (Returned a, w).

Definition bind {A B} (m : M A) (k : A -> M B) : M B :=
  fun w =>
    match m w with
    | (Returned a, w') => k a w'
    | (Thrown, w') => (Thrown, w')
    | (Undefined, w') => (Undefined, w')
    end.

Notation "x <- m ;; k" := (bind m (fun x => k))
  (at level 100, m at next level, right associativity).
Notation "m ;;; k" := (bind m (fun _ => k))
  (at level 100, right associativity).

Definition emit (e : event Args) : M unit :=
  fun w => (Returned tt,
            mk_world (manager w) (wrappers w) (effects w ++ [e])).

(** Reading and writing the member [m_ptr] of the wrapper at [this]. *)
Definition read_m_ptr (this : nat) : M Z :=
  fun w => match wrappers w !! this with
           | Some p => (Returned p, w)
           | None => (Undefined, w)
           end.

Definition write_m_ptr (this : nat) (p : Z) : M unit :=
  fun w => (Returned tt,
            mk_world (manager w) (<[this := p]> (wrappers w)) (effects w)).

(** A constructor runs where no wrapper is alive. *)
Definition not_alive (this : nat) : M unit :=
  fun w => match wrappers w !! this with
           | Some _ => (Undefined, w)
           | None => (Returned tt, w)
           end.

(** The end of a destructor: the wrapper is no longer alive. *)
Definition end_lifetime (this : nat) : M unit :=
  fun w => (Returned tt,
            mk_world (manager w) (delete this (wrappers w)) (effects w)).

(** [MemoryManager::Instance().Allocate(Type, size)], the alignment
    defaulted to [0]. *)
Definition manager_Allocate (size : Z) : M Z :=
  fun w =>
    let '(p, m) := mm_Allocate Type_ size 0 (manager w) in
    (Returned p,
     mk_world m (wrappers w) (effects w ++ [EAllocate Type_ size p])).

(** [MemoryManager::Instance().Free(Type, ptr)] *)
Definition manager_Free (ptr : Z) : M unit :=
  fun w =>
    (Returned tt,
     mk_world (mm_Free Type_ ptr (manager w)) (wrappers w)
              (effects w ++ [EFree Type_ ptr])).

(** [new (ptr) T(args...)]: the placement form returns [ptr] and runs
    the constructor there; its deallocation counterpart, called when the
    constructor throws, does nothing. *)
Definition construct_T (ptr : Z) (args : Args) : M Z :=
  if decide (ptr = nullptr) then (fun w => (Undefined, w))
  else emit (EConstruct ptr args) ;;;
       if T_throws args then (fun w => (Thrown, w)) else ret ptr.

(** [ptr->~T()] *)
Definition destroy_T (ptr : Z) : M unit := emit (EDestroy ptr).

(** [AllocatedPtr() : m_ptr(nullptr) {}] *)
Definition AllocatedPtr_default (this : nat) : M unit :=
  not_alive this ;;;
  write_m_ptr this nullptr.

(** [m_ptr = new (MemoryManager::Instance().Allocate(Type, sizeof(T)))
               T(std::forward<Args>(args)...);] *)
Definition construction (this : nat) (args : Args) : M unit :=
  storage <- manager_Allocate sizeof_T ;;
  p <- construct_T storage args ;;
  write_m_ptr this p.

(** [template<typename... Args> AllocatedPtr(Args&&... args)] *)
Definition AllocatedPtr_init (this : nat) (args : Args) : M unit :=
  not_alive this ;;;
  construction this args.

(** [~AllocatedPtr()] *)
Definition AllocatedPtr_destructor (this : nat) : M unit :=
  p <- read_m_ptr this ;;
  (if decide (p <> nullptr)
   then destroy_T p ;;; manager_Free p
   else ret tt) ;;;
  end_lifetime this.

(** [AllocatedPtr(AllocatedPtr&& other) noexcept : m_ptr(other.m_ptr)
      { other.m_ptr = nullptr; }] *)
Definition AllocatedPtr_move (this other : nat) : M unit :=
  not_alive this ;;;
  p <- read_m_ptr other ;;
  write_m_ptr this p ;;;
  write_m_ptr other nullptr.

(** [AllocatedPtr& operator=(AllocatedPtr&& other) noexcept] *)
Definition move_assign (this other : nat) : M unit :=
  if decide (this <> other)
  then
    p <- read_m_ptr this ;;
    (if decide (p <> nullptr)
     then destroy_T p ;;; manager_Free p
     else ret tt) ;;;
    q <- read_m_ptr other ;;
    write_m_ptr this q ;;;
    write_m_ptr other nullptr
  else ret tt.

(** [T* Get() const { return m_ptr; }] *)
Definition Get (this : nat) : M Z := read_m_ptr this.

(** [explicit operator bool() const { return m_ptr != nullptr; }] *)
Definition operator_bool (this : nat) : M bool :=
  p <- read_m_ptr this ;;
  ret (bool_decide (p <> nullptr)).

(** [void Reset()] *)
Definition Reset (this : nat) : M unit :=
  p <- read_m_ptr this ;;
  if decide (p <> nullptr)
  then destroy_T p ;;; manager_Free p ;;; write_m_ptr this nullptr
  else ret tt.

(** [template<typename... Args> void Reset(Args&&... args)] *)
Definition Reset_args (this : nat) (args : Args) : M unit :=
  Reset this ;;;
  storage <- manager_Allocate sizeof_T ;;
  p <- construct_T storage args ;;
  write_m_ptr this p.

(** The reading of [Reset(args...)] in the design document: "equivalent
    to [Reset()] followed by re-construction with new arguments", the
    construction being the one of the initializing constructor. *)
Definition Reset_then_construct (this : nat) (args : Args) : M unit :=
  bind (Reset this) (fun _ => construction this args).

(** The operations a program can apply to wrappers.  The copy
    constructor and the copy assignment are deleted: there is no
    operation for them. *)
Inductive operation :=
| OpDefault (this : nat)
| OpInit (this : nat) (args : Args)
| OpDestructor (this : nat)
| OpMove (this other : nat)
| OpMoveAssign (this other : nat)
| OpReset (this : nat)
| OpResetArgs (this : nat) (args : Args).

Definition perform (o : operation) : M unit :=
  match o with
  | OpDefault this => AllocatedPtr_default this
  | OpInit this args => AllocatedPtr_init this args
  | OpDestructor this => AllocatedPtr_destructor this
  | OpMove this other => AllocatedPtr_move this other
  | OpMoveAssign this other => move_assign this other
  | OpReset this => Reset this
  | OpResetArgs this args => Reset_args this args
  end.

(** A program: a sequence of operations.  An exception is caught by the
    caller and the program goes on; after undefined behaviour nothing
    more is said. *)
Fixpoint run (ops : list operation) (w : world Mgr Args)
  : outcome unit * world Mgr Args :=
  match ops with
  | [] => (Returned tt, w)
  | o :: ops' =>
      match perform o w with
      | (Undefined, w') => (Undefined, w')
      | (_, w') => run ops' w'
      end
  end.

(** [T* operator->() const { return m_ptr; }] *)
Definition operator_arrow (this : nat) : M Z := read_m_ptr this.

(** [T& operator*() const { return *m_ptr; }]: the reference designates
    the object at [m_ptr]; there is no check, and dereferencing [nullptr]
    is undefined. *)
Definition operator_star (this : nat) : M Z :=
  p <- read_m_ptr this ;;
  if decide (p = nullptr) then (fun w => (Undefined, w)) else ret p.

(** [template<typename T, MemoryManager::AllocatorType Type, typename... Args>
     AllocatedPtr<T, Type> MakeAllocated(Args&&... args)
     { return AllocatedPtr<T, Type>(std::forward<Args>(args)...); }]
    The returned object is the one at [this].  The pack may be empty
    ([None]): the expression is then [AllocatedPtr<T, Type>()], for which
    overload resolution prefers the non-template default constructor to
    the constructor template. *)
Definition MakeAllocated (this : nat) (args : option Args) : M unit :=
  match args with
  | Some args => AllocatedPtr_init this args
  | None => AllocatedPtr_default this
  end.

(** The wrappers an operation is applied to. *)
Definition operands (o : operation) : list nat :=
  match o with
  | OpDefault this => [this]
  | OpInit this _ => [this]
  | OpDestructor this => [this]
  | OpMove this other => [this; other]
  | OpMoveAssign this other => [this; other]
  | OpReset this => [this]
  | OpResetArgs this _ => [this]
  end.

End WithElementType.

(** *** Reading the effects *)

Section Effects.
Context {Args : Type}.

(** The addresses handed out by [Allocate] and not yet given back. *)
Definition issue (s : gset Z) (e : event Args) : gset Z :=
  match e with
  | EAllocate _ _ p => {[p]} ∪ s
  | EFree _ p => s ∖ {[p]}
  | _ => s
  end.

Definition issued_from (s : gset Z) (tr : list (event Args)) : gset Z :=
  fold_left issue tr s.

Definition issued (tr : list (event Args)) : gset Z := issued_from ∅ tr.

(** The allocator contract the wrappers rely on: [Allocate] does not
    return an address that is still in use. *)
Definition fresh_event (s : gset Z) (e : event Args) : bool :=
  match e with
  | EAllocate _ _ p => bool_decide (p = nullptr \/ p ∉ s)
  | _ => true
  end.

Fixpoint fresh_from (s : gset Z) (tr : list (event Args)) : bool :=
  match tr with
  | [] => true
  | e :: tr' => fresh_event s e && fresh_from (issue s e) tr'
  end.

Definition fresh_allocations (tr : list (event Args)) : bool :=
  fresh_from ∅ tr.

(** No address is given back that is not in use at that time (in
    particular none is given back twice). *)
Definition release_event (s : gset Z) (e : event Args) : bool :=
  match e with
  | EFree _ p => bool_decide (p ∈ s)
  | _ => true
  end.

Fixpoint releases_from (s : gset Z) (tr : list (event Args)) : bool :=
  match tr with
  | [] => true
  | e :: tr' => release_event s e && releases_from (issue s e) tr'
  end.

Definition releases_once (tr : list (event Args)) : bool :=
  releases_from ∅ tr.

Definition is_Free (e : event Args) : bool :=
  match e with EFree _ _ => true | _ => false end.

(** Every [Free] comes right after the destructor call on the same
    address. *)
Definition destroy_before_free (tr : list (event Args)) : Prop :=
  forall pre k p post,
    tr = pre ++ EFree k p :: post -> exists pre', pre = pre' ++ [EDestroy p].

(** No constructor call among the effects threw. *)
Definition constructions_returned (T_throws : Args -> bool)
           (tr : list (event Args)) : bool :=
  forallb (fun e => match e with
                    | EConstruct _ args => negb (T_throws args)
                    | _ => true
                    end) tr.

(** An effect of a wrapper bound to the kind [Type_] for elements of
    [sizeof_T] bytes: the manager is asked for that size from that kind,
    and storage goes back to that kind. *)
Definition bound_to (Type_ : AllocatorType) (sizeof_T : Z) (e : event Args)
  : Prop :=
  match e with
  | EAllocate k size _ => k = Type_ /\ size = sizeof_T
  | EFree k _ => k = Type_
  | _ => True
  end.

(** The addresses at which a value of [T] exists: a constructor returned
    there and the destructor has not run since. *)
Definition value_step (T_throws : Args -> bool) (s : gset Z) (e : event Args)
  : gset Z :=
  match e with
  | EConstruct p args => if T_throws args then s else {[p]} ∪ s
  | EDestroy p => s ∖ {[p]}
  | _ => s
  end.

Definition values_from (T_throws : Args -> bool) (s : gset Z)
           (tr : list (event Args)) : gset Z :=
  fold_left (value_step T_throws) tr s.

Definition values (T_throws : Args -> bool) (tr : list (event Args)) : gset Z :=
  values_from T_throws ∅ tr.

(** The destructor of [T] only runs where a value exists. *)
Definition destroy_event (s : gset Z) (e : event Args) : bool :=
  match e with
  | EDestroy p => bool_decide (p ∈ s)
  | _ => true
  end.

Fixpoint destroys_from (T_throws : Args -> bool) (s : gset Z)
         (tr : list (event Args)) : bool :=
  match tr with
  | [] => true
  | e :: tr' =>
      destroy_event s e && destroys_from T_throws (value_step T_throws s e) tr'
  end.

Definition destroys_values (T_throws : Args -> bool) (tr : list (event Args))
  : bool :=
  destroys_from T_throws ∅ tr.

End Effects.

(** Each address is held by at most one wrapper. *)
Definition unique_owner (ws : gmap nat Z) : Prop :=
  forall a b p, ws !! a = Some p -> ws !! b = Some p -> p <> nullptr -> a = b.

(** The ownership invariant: the wrappers hold distinct addresses, every
    held address is in use, and nothing was given back that was not. *)
Definition owned {Args : Type} (ws : gmap nat Z) (tr : list (event Args))
  : Prop :=
  unique_owner ws
  /\ (forall a p, ws !! a = Some p -> p <> nullptr -> p ∈ issued tr)
  /\ releases_once tr = true.

(** Every address in use is held by a wrapper. *)
Definition accounted {Args : Type} (ws : gmap nat Z) (tr : list (event Args))
  : Prop :=
  forall p, p ∈ issued tr -> p <> nullptr -> exists a, ws !! a = Some p.

(** The wrapper at [this] holds no value, or is not alive. *)
Definition vacant (ws : gmap nat Z) (this : nat) : Prop :=
  forall p, ws !! this = Some p -> p = nullptr.

(** Every wrapper that holds an address holds a value of [T] there, and
    the destructor of [T] has only run on values. *)
Definition holds_values {Args : Type} (T_throws : Args -> bool)
           (ws : gmap nat Z) (tr : list (event Args)) : Prop :=
  (forall a p, ws !! a = Some p -> p <> nullptr -> p ∈ values T_throws tr)
  /\ destroys_values T_throws tr = true.

End AllocatedPtr.

(** ** A concrete configuration

    A manager with a pool of four 64-byte blocks registered for the [Pool]
    kind, over a system allocator that hands out increasing addresses, and
    an element type of 48 bytes with two constructors: [T(false)] returns
    and [T(true)] throws. *)

Module Demo.

Definition sys_malloc (size : Z) (heap : Z) : Z * Z :=
  (heap, heap + Z.max size 1).

Definition sys_free (ptr : Z) (heap : Z) : Z := heap.

Definition pool : PoolAllocator.t := PoolAllocator.create 4096 64 4 true.

Definition manager : @MemoryManager.t Z :=
  MemoryManager.RegisterAllocator Pool (pack pool) (MemoryManager.mk ∅ 65536).

(** Operations on the manager: two more allocators are registered, then
    storage is requested from each kind and one block is given back. *)
Definition manager_operations : list MemoryManager.operation :=
  [MemoryManager.OpRegisterAllocator Linear
     (pack (LinearAllocator.mk 8192 1024 0 true));
   MemoryManager.OpRegisterAllocator Stack
     (pack (StackAllocator.mk 16384 256 0 true 0));
   MemoryManager.OpAllocate Pool 48 0;
   MemoryManager.OpAllocate Pool 48 0;
   MemoryManager.OpAllocate Linear 30 16;
   MemoryManager.OpAllocate Stack 16 8;
   MemoryManager.OpAllocate Default 100 0;
   MemoryManager.OpFree Pool 4096].

Definition mm_Allocate := MemoryManager.Allocate sys_malloc.
Definition mm_Free := MemoryManager.Free sys_free.

Definition T_throws (args : bool) : bool := args.
Definition sizeof_T : Z := 48.

(** [GetAllocator(Pool)->GetAllocatedSize()] *)
Definition pool_allocated_size (m : @MemoryManager.t Z) : option Z :=
  allocator_GetAllocatedSize <$> MemoryManager.GetAllocator Pool m.

Definition world0 : AllocatedPtr.world (@MemoryManager.t Z) bool :=
  AllocatedPtr.mk_world manager ∅ [].

(** A world with one empty wrapper at [1] and one at [2] holding a
    value. *)
Definition world1 : AllocatedPtr.world (@MemoryManager.t Z) bool :=
  (AllocatedPtr.run mm_Allocate mm_Free T_throws sizeof_T Pool
     [AllocatedPtr.OpDefault 1%nat; AllocatedPtr.OpInit 2%nat false]
     world0).2.

Definition program : list (AllocatedPtr.operation (Args := bool)) :=
  [AllocatedPtr.OpInit 1%nat false;
   AllocatedPtr.OpInit 2%nat true;
   AllocatedPtr.OpMove 3%nat 1%nat;
   AllocatedPtr.OpResetArgs 3%nat false;
   AllocatedPtr.OpDefault 4%nat;
   AllocatedPtr.OpMoveAssign 4%nat 3%nat;
   AllocatedPtr.OpMoveAssign 4%nat 4%nat;
   AllocatedPtr.OpReset 3%nat;
   AllocatedPtr.OpDestructor 4%nat;
   AllocatedPtr.OpDestructor 1%nat].


(** A program in which no constructor throws, and which ends with the
    wrapper at [3] holding a value. *)
Definition quiet_program : list (AllocatedPtr.operation (Args := bool)) :=
  [AllocatedPtr.OpInit 1%nat false;
   AllocatedPtr.OpInit 2%nat false;
   AllocatedPtr.OpMove 3%nat 1%nat;
   AllocatedPtr.OpResetArgs 2%nat false;
   AllocatedPtr.OpDestructor 2%nat;
   AllocatedPtr.OpDestructor 1%nat].

(** The same program, ended by the destruction of the last wrapper. *)
Definition closed_program : list (AllocatedPtr.operation (Args := bool)) :=
  quiet_program ++ [AllocatedPtr.OpDestructor 3%nat].

End Demo.

(** * Properties *)




(** ** Properties of LinearAllocator *)

Section LinearProperties.
Import LinearAllocator.






End LinearProperties.



(** The three calls of the example: two are served at aligned addresses,
    the third would pass the end of the 64-byte buffer and is refused. *)
Example linear_allocate_example :
  List.map LinearAllocator.call_result
    (LinearAllocator.allocate_all (LinearAllocator.mk 1000 64 0 true)
       [(10, 0); (20, 16); (100, 4)]).1
  = [Some 1000; Some 1024; None]
  /\ LinearAllocator.GetAllocatedSize
       (LinearAllocator.allocate_all (LinearAllocator.mk 1000 64 0 true)
          [(10, 0); (20, 16); (100, 4)]).2 = 44.
Proof. split; reflexivity. Qed.

(** ** Properties of PoolAllocator *)

Lemma wrap_small x : is_size_t x -> wrap x = x.
Proof. unfold wrap, is_size_t. intros H. apply Z.mod_small. exact H. Qed.

Lemma wrap_add_l x y : wrap (wrap x + y) = wrap (x + y).
Proof. unfold wrap. apply Zplus_mod_idemp_l. Qed.

Lemma wrap_add_r x y : wrap (x + wrap y) = wrap (x + y).
Proof. unfold wrap. apply Zplus_mod_idemp_r. Qed.

Lemma wrap_mul_l x y : wrap (wrap x * y) = wrap (x * y).
Proof. unfold wrap. apply Zmult_mod_idemp_l. Qed.

(** The equation holds in [size_t] arithmetic in every state whatsoever. *)
Lemma pool_size_equation_wrapping (a : PoolAllocator.t) :
  wrap (PoolAllocator.GetAllocatedSize a
        + wrap (PoolAllocator.m_freeBlocks a * PoolAllocator.m_blockSize a))
  = PoolAllocator.GetTotalSize a.
Proof.
  unfold PoolAllocator.GetAllocatedSize, PoolAllocator.GetTotalSize.
  rewrite wrap_add_r, wrap_mul_l, wrap_add_l.
  f_equal. ring.
Qed.

(** C4. In every state of a [PoolAllocator] that satisfies
    [freeBlocks <= blockCount],
    [GetAllocatedSize() + freeBlocks * blockSize == GetTotalSize()]:
    as the [size_t] comparison the program evaluates, and over the integers
    as soon as the pool's byte size [blockCount * blockSize] is a
    [size_t]. *)
Theorem pool_size_equation (a : PoolAllocator.t) :
  PoolAllocator.in_range a ->
  PoolAllocator.invariant a ->
  wrap (PoolAllocator.GetAllocatedSize a
        + wrap (PoolAllocator.m_freeBlocks a * PoolAllocator.m_blockSize a))
  = PoolAllocator.GetTotalSize a
  /\ (PoolAllocator.m_blockCount a * PoolAllocator.m_blockSize a < size_t_modulus ->
      PoolAllocator.GetAllocatedSize a
      + PoolAllocator.m_freeBlocks a * PoolAllocator.m_blockSize a
      = PoolAllocator.GetTotalSize a).
Proof.
  intros (Hbs & Hbc & Hfb) Hinv. split; [apply pool_size_equation_wrapping |].
  intros Hfit. unfold PoolAllocator.invariant in Hinv.
  unfold PoolAllocator.GetAllocatedSize, PoolAllocator.GetTotalSize.
  unfold is_size_t in *.
  rewrite (wrap_small (PoolAllocator.m_blockCount a - PoolAllocator.m_freeBlocks a))
    by (unfold is_size_t; lia).
  rewrite !wrap_small; unfold is_size_t; nia.
Qed.

Lemma pool_size_equation_witness :
  let a := PoolAllocator.mk 4096 64 4 1 [4096] true in
  wrap (PoolAllocator.GetAllocatedSize a
        + wrap (PoolAllocator.m_freeBlocks a * PoolAllocator.m_blockSize a))
  = PoolAllocator.GetTotalSize a
  /\ PoolAllocator.GetAllocatedSize a
     + PoolAllocator.m_freeBlocks a * PoolAllocator.m_blockSize a
     = PoolAllocator.GetTotalSize a.
Proof.
  intros a.
  destruct (pool_size_equation (PoolAllocator.mk 4096 64 4 1 [4096] true))
    as [Hwrap Hexact].
  - unfold PoolAllocator.in_range, is_size_t, size_t_modulus, size_t_bits;
      simpl; lia.
  - unfold PoolAllocator.invariant; simpl; lia.
  - split; [exact Hwrap | apply Hexact; vm_compute; reflexivity].
Defined.

(** The scenario of the design document: a pool of four 64-byte blocks
    serves four distinct blocks, refuses a fifth request, and hands the
    first block out again once it has been freed. *)
Example pool_scenario :
  let p0 := PoolAllocator.create 4096 64 4 true in
  let '(r1, p1) := PoolAllocator.Allocate p0 48 0 in
  let '(r2, p2) := PoolAllocator.Allocate p1 48 0 in
  let '(r3, p3) := PoolAllocator.Allocate p2 48 0 in
  let '(r4, p4) := PoolAllocator.Allocate p3 48 0 in
  let '(r5, p5) := PoolAllocator.Allocate p4 48 0 in
  let '(r6, p6) := PoolAllocator.Allocate (PoolAllocator.Free p5 4096) 48 0 in
  [r1; r2; r3; r4; r5; r6]
  = [Some 4096; Some 4160; Some 4224; Some 4288; None; Some 4096]
  /\ PoolAllocator.GetAllocatedSize p4 = 256
  /\ PoolAllocator.GetAllocatedSize p6 = 256.
Proof. repeat split; reflexivity. Qed.

(** ** Properties of StackAllocator *)

Lemma stack_allocate_all_frame reqs : forall (a : StackAllocator.t),
  StackAllocator.m_memory (StackAllocator.allocate_all a reqs).2
    = StackAllocator.m_memory a
  /\ StackAllocator.m_size (StackAllocator.allocate_all a reqs).2
    = StackAllocator.m_size a.
Proof.
  induction reqs as [|[size alignment] reqs IH]; intros a; simpl.
  - split; reflexivity.
  - unfold StackAllocator.Allocate.
    destruct (_ <=? _);
      match goal with
      | |- context [StackAllocator.allocate_all ?x reqs] =>
          destruct (IH x) as [IH1 IH2];
          destruct (StackAllocator.allocate_all x reqs) as [rs a'']
      end; simpl in *; split; assumption.
Qed.

(** C7. Taking a marker, making any number of [Allocate] calls (whatever
    they return) and calling [FreeToMarker] with that marker brings
    [GetAllocatedSize()] back to its value when the marker was taken; the
    capacity is untouched. *)
Theorem stack_marker_round_trip (a : StackAllocator.t) (reqs : list (Z * Z)) :
  let marker := StackAllocator.GetMarker a in
  let a' := (StackAllocator.allocate_all a reqs).2 in
  StackAllocator.GetAllocatedSize (StackAllocator.FreeToMarker a' marker)
    = StackAllocator.GetAllocatedSize a
  /\ StackAllocator.GetTotalSize (StackAllocator.FreeToMarker a' marker)
    = StackAllocator.GetTotalSize a.
Proof.
  simpl. split; [reflexivity |].
  unfold StackAllocator.GetTotalSize, StackAllocator.FreeToMarker; simpl.
  apply stack_allocate_all_frame.
Qed.

(** The scenario of the design document: in a stack of 256 bytes, a marker,
    then 100 and 50 bytes, then [FreeToMarker]: nothing is allocated any
    more and a request of 200 bytes is served. *)
Example stack_scenario :
  let s0 := StackAllocator.mk 4096 256 0 true 0 in
  let marker := StackAllocator.GetMarker s0 in
  let s2 := (StackAllocator.allocate_all s0 [(100, 0); (50, 0)]).2 in
  let s3 := StackAllocator.FreeToMarker s2 marker in
  StackAllocator.GetAllocatedSize s2 = 154
  /\ (StackAllocator.Allocate s2 200 0).1 = None
  /\ StackAllocator.GetAllocatedSize s3 = 0
  /\ (StackAllocator.Allocate s3 200 0).1 = Some 4096.
Proof. repeat split; reflexivity. Qed.

(** ** Properties of MemoryManager *)

Section ManagerProperties.
Import MemoryManager.

Lemma usage_step_comm (z1 z2 y : Z) :
  wrap (wrap (y + z2) + z1) = wrap (wrap (y + z1) + z2).
Proof. rewrite !wrap_add_l. f_equal. lia. Qed.

Lemma usage_sum_insert (u : gmap AllocatorType Z) k v :
  u !! k = None -> usage_sum (<[k := v]> u) = wrap (usage_sum u + v).
Proof.
  intros Hk. unfold usage_sum.
  rewrite map_fold_insert_L; [reflexivity | | exact Hk].
  intros. apply usage_step_comm.
Qed.

Lemma usage_total_insert (u : gmap AllocatorType Z) k v :
  u !! k = None -> usage_total (<[k := v]> u) = usage_total u + v.
Proof.
  intros Hk. unfold usage_total.
  rewrite map_fold_insert_L; [reflexivity | | exact Hk].
  intros. lia.
Qed.

(** The [size_t] sum is the integer sum reduced to a [size_t]. *)
Lemma usage_sum_total (u : gmap AllocatorType Z) :
  usage_sum u = wrap (usage_total u).
Proof.
  induction u as [|k v u Hk IH] using map_ind.
  - reflexivity.
  - rewrite usage_sum_insert, usage_total_insert by exact Hk.
    rewrite IH. apply wrap_add_l.
Qed.

Lemma GetMemoryStats_sum {Heap} (m : @t Heap) :
  totalAllocated (GetMemoryStats m)
    = usage_sum (allocatorUsage (GetMemoryStats m))
  /\ (forall k, m_allocators m !! k = None ->
                allocatorUsage (GetMemoryStats m) !! k = None).
Proof.
  unfold GetMemoryStats.
  apply (map_fold_weak_ind
           (fun (r : MemoryStats) (ms : gmap AllocatorType allocator) =>
              totalAllocated r = usage_sum (allocatorUsage r)
              /\ (forall k, ms !! k = None -> allocatorUsage r !! k = None))).
  - split; [reflexivity | intros; apply lookup_empty].
  - intros k a ms r Hk [IH1 IH2]. simpl. split.
    + rewrite usage_sum_insert by (apply IH2; exact Hk).
      rewrite IH1. reflexivity.
    + intros j Hj. apply lookup_insert_None in Hj as [Hj Hne].
      rewrite lookup_insert_ne by exact Hne. apply IH2; exact Hj.
Qed.

(** The per-kind entries are the allocated sizes of the registered
    allocators. *)
Lemma GetMemoryStats_usage {Heap} (m : @t Heap) k :
  allocatorUsage (GetMemoryStats m) !! k
  = allocator_GetAllocatedSize <$> (m_allocators m !! k).
Proof.
  unfold GetMemoryStats.
  apply (map_fold_weak_ind
           (fun (r : MemoryStats) (ms : gmap AllocatorType allocator) =>
              allocatorUsage r !! k
              = allocator_GetAllocatedSize <$> (ms !! k))).
  - rewrite !lookup_empty. reflexivity.
  - intros i a ms r Hi IH. simpl.
    destruct (decide (i = k)) as [->|Hne].
    + rewrite !lookup_insert_eq. reflexivity.
    + rewrite !lookup_insert_ne by exact Hne. exact IH.
Qed.

End ManagerProperties.

(** C8. In every state a [MemoryManager] reaches through its public
    operations (from any state at all), [GetMemoryStats().totalAllocated] is
    the sum of the entries of [allocatorUsage]: the sum as the [size_t] the
    field holds, which is the integer sum reduced to 64 bits, and the
    integer sum itself when that is a [size_t]. *)
Theorem stats_total_is_usage_sum {Heap : Type}
    (malloc : Z -> Heap -> Z * Heap) (free : Z -> Heap -> Heap)
    (m : @MemoryManager.t Heap) (ops : list MemoryManager.operation) :
  let m' := fold_left (fun s o => MemoryManager.perform malloc free o s) ops m in
  let stats := MemoryManager.GetMemoryStats m' in
  MemoryManager.totalAllocated stats
    = MemoryManager.usage_sum (MemoryManager.allocatorUsage stats)
  /\ MemoryManager.totalAllocated stats
    = wrap (MemoryManager.usage_total (MemoryManager.allocatorUsage stats))
  /\ (is_size_t (MemoryManager.usage_total (MemoryManager.allocatorUsage stats)) ->
      MemoryManager.totalAllocated stats
      = MemoryManager.usage_total (MemoryManager.allocatorUsage stats)).
Proof.
  simpl. split; [| split].
  - apply GetMemoryStats_sum.
  - rewrite <- usage_sum_total. apply GetMemoryStats_sum.
  - intros Hfit. rewrite <- (wrap_small _ Hfit).
    rewrite <- usage_sum_total. apply GetMemoryStats_sum.
Qed.

Lemma stats_total_is_usage_sum_witness :
  let m' :=
    fold_left
      (fun s o => MemoryManager.perform Demo.sys_malloc Demo.sys_free o s)
      Demo.manager_operations Demo.manager in
  let stats := MemoryManager.GetMemoryStats m' in
  MemoryManager.totalAllocated stats
    = MemoryManager.usage_sum (MemoryManager.allocatorUsage stats)
  /\ MemoryManager.totalAllocated stats
    = wrap (MemoryManager.usage_total (MemoryManager.allocatorUsage stats))
  /\ MemoryManager.totalAllocated stats
    = MemoryManager.usage_total (MemoryManager.allocatorUsage stats).
Proof.
  intros m' stats.
  destruct (stats_total_is_usage_sum Demo.sys_malloc Demo.sys_free
              Demo.manager Demo.manager_operations) as (Hsum & Hwrap & Hexact).
  split; [exact Hsum | split; [exact Hwrap |]].
  apply Hexact. vm_compute. split; [discriminate | reflexivity].
Defined.

(** The operations of the example leave 64 bytes in use in the pool, 30 in
    the linear allocator and 16 in the stack allocator. *)
Example manager_statistics :
  let m' :=
    fold_left
      (fun s o => MemoryManager.perform Demo.sys_malloc Demo.sys_free o s)
      Demo.manager_operations Demo.manager in
  let stats := MemoryManager.GetMemoryStats m' in
  MemoryManager.totalAllocated stats = 110
  /\ MemoryManager.allocatorUsage stats !! Pool = Some 64
  /\ MemoryManager.allocatorUsage stats !! Linear = Some 30
  /\ MemoryManager.allocatorUsage stats !! Stack = Some 16
  /\ MemoryManager.allocatorUsage stats !! Default = None.
Proof. vm_compute. repeat split. Qed.

(** ** Properties of AllocatedPtr *)

(** *** The effects and the ownership invariant *)

Section TraceProperties.
Import AllocatedPtr.
Context {Args : Type}.
Implicit Types (tr : list (event Args)) (s : gset Z) (ws : gmap nat Z).

Lemma issued_snoc tr (e : event Args) :
  issued (tr ++ [e]) = issue (issued tr) e.
Proof. unfold issued, issued_from. rewrite fold_left_app. reflexivity. Qed.

Lemma fresh_from_app tr : forall s tr',
  fresh_from s (tr ++ tr')
  = fresh_from s tr && fresh_from (issued_from s tr) tr'.
Proof.
  induction tr as [|e tr IH]; intros s tr'; simpl.
  - reflexivity.
  - rewrite IH, andb_assoc. reflexivity.
Qed.

Lemma fresh_snoc tr (e : event Args) :
  fresh_allocations (tr ++ [e])
  = fresh_allocations tr && fresh_event (issued tr) e.
Proof.
  unfold fresh_allocations. rewrite fresh_from_app. simpl.
  rewrite andb_true_r. reflexivity.
Qed.

Lemma releases_from_app tr : forall s tr',
  releases_from s (tr ++ tr')
  = releases_from s tr && releases_from (issued_from s tr) tr'.
Proof.
  induction tr as [|e tr IH]; intros s tr'; simpl.
  - reflexivity.
  - rewrite IH, andb_assoc. reflexivity.
Qed.

Lemma releases_snoc tr (e : event Args) :
  releases_once (tr ++ [e])
  = releases_once tr && release_event (issued tr) e.
Proof.
  unfold releases_once. rewrite releases_from_app. simpl.
  rewrite andb_true_r. reflexivity.
Qed.

Lemma owned_construct ws tr p (args : Args) :
  owned ws tr -> owned ws (tr ++ [EConstruct p args]).
Proof.
  intros (Hu & Hh & Hr). repeat split; [exact Hu | |].
  - intros a q Ha Hq. rewrite issued_snoc. simpl. eauto.
  - rewrite releases_snoc, Hr. reflexivity.
Qed.

Lemma owned_destroy ws tr p :
  owned ws tr -> owned ws (tr ++ [EDestroy p]).
Proof.
  intros (Hu & Hh & Hr). repeat split; [exact Hu | |].
  - intros a q Ha Hq. rewrite issued_snoc. simpl. eauto.
  - rewrite releases_snoc, Hr. reflexivity.
Qed.

Lemma owned_allocate ws tr k size p :
  owned ws tr -> owned ws (tr ++ [EAllocate k size p]).
Proof.
  intros (Hu & Hh & Hr). repeat split; [exact Hu | |].
  - intros a q Ha Hq. rewrite issued_snoc. simpl.
    apply elem_of_union_r. eauto.
  - rewrite releases_snoc, Hr. reflexivity.
Qed.

Lemma owned_not_held ws tr p :
  owned ws tr -> p <> nullptr -> p ∉ issued tr ->
  forall a, ws !! a <> Some p.
Proof. intros (Hu & Hh & Hr) Hp Hn a Ha. apply Hn. eauto. Qed.

Lemma owned_free_null ws tr this k p :
  owned ws tr -> ws !! this = Some p -> p <> nullptr ->
  owned (<[this := nullptr]> ws) (tr ++ [EFree k p]).
Proof.
  intros (Hu & Hh & Hr) Hthis Hp. repeat split.
  - intros a b q Ha Hb Hq.
    destruct (decide (a = this)) as [->|Ha'];
      [rewrite lookup_insert_eq in Ha; congruence |].
    destruct (decide (b = this)) as [->|Hb'];
      [rewrite lookup_insert_eq in Hb; congruence |].
    rewrite lookup_insert_ne in Ha, Hb by congruence. eauto.
  - intros a q Ha Hq. rewrite issued_snoc. simpl.
    destruct (decide (a = this)) as [->|Ha'];
      [rewrite lookup_insert_eq in Ha; congruence |].
    rewrite lookup_insert_ne in Ha by congruence.
    apply elem_of_difference. split; [eauto |].
    intros Hin. apply elem_of_singleton in Hin. subst q.
    apply Ha'. eapply Hu; eauto.
  - rewrite releases_snoc, Hr. simpl. apply bool_decide_eq_true. eauto.
Qed.

Lemma owned_delete ws tr this :
  owned ws tr -> owned (delete this ws) tr.
Proof.
  intros (Hu & Hh & Hr). repeat split; [| | exact Hr].
  - intros a b q Ha Hb Hq.
    apply lookup_delete_Some in Ha as [_ Ha].
    apply lookup_delete_Some in Hb as [_ Hb]. eauto.
  - intros a q Ha Hq. apply lookup_delete_Some in Ha as [_ Ha]. eauto.
Qed.

Lemma owned_null ws tr this :
  owned ws tr -> owned (<[this := nullptr]> ws) tr.
Proof.
  intros (Hu & Hh & Hr). repeat split; [| | exact Hr].
  - intros a b q Ha Hb Hq.
    destruct (decide (a = this)) as [->|Ha'];
      [rewrite lookup_insert_eq in Ha; congruence |].
    destruct (decide (b = this)) as [->|Hb'];
      [rewrite lookup_insert_eq in Hb; congruence |].
    rewrite lookup_insert_ne in Ha, Hb by congruence. eauto.
  - intros a q Ha Hq.
    destruct (decide (a = this)) as [->|Ha'];
      [rewrite lookup_insert_eq in Ha; congruence |].
    rewrite lookup_insert_ne in Ha by congruence. eauto.
Qed.

Lemma owned_attach ws tr this p :
  owned ws tr ->
  (p <> nullptr -> p ∈ issued tr /\ forall a, ws !! a <> Some p) ->
  owned (<[this := p]> ws) tr.
Proof.
  intros (Hu & Hh & Hr) Hp. repeat split; [| | exact Hr].
  - intros a b q Ha Hb Hq.
    destruct (decide (a = this)) as [->|Ha'];
      destruct (decide (b = this)) as [->|Hb']; try reflexivity.
    + rewrite lookup_insert_eq in Ha. rewrite lookup_insert_ne in Hb by congruence.
      inversion Ha; subst q. destruct (Hp Hq) as [_ Hn]. destruct (Hn _ Hb).
    + rewrite lookup_insert_eq in Hb. rewrite lookup_insert_ne in Ha by congruence.
      inversion Hb; subst q. destruct (Hp Hq) as [_ Hn]. destruct (Hn _ Ha).
    + rewrite lookup_insert_ne in Ha, Hb by congruence. eauto.
  - intros a q Ha Hq.
    destruct (decide (a = this)) as [->|Ha'].
    + rewrite lookup_insert_eq in Ha. inversion Ha; subst q. apply Hp, Hq.
    + rewrite lookup_insert_ne in Ha by congruence. eauto.
Qed.

Lemma owned_transfer ws tr this other q :
  owned ws tr -> this <> other -> ws !! other = Some q ->
  owned (<[other := nullptr]> (<[this := q]> ws)) tr.
Proof.
  intros (Hu & Hh & Hr) Hne Hother. repeat split; [| | exact Hr].
  - intros a b p Ha Hb Hp.
    destruct (decide (a = other)) as [->|Ha'];
      [rewrite lookup_insert_eq in Ha; congruence |].
    destruct (decide (b = other)) as [->|Hb'];
      [rewrite lookup_insert_eq in Hb; congruence |].
    rewrite lookup_insert_ne in Ha, Hb by congruence.
    destruct (decide (a = this)) as [->|Ha2];
      destruct (decide (b = this)) as [->|Hb2]; try reflexivity.
    + rewrite lookup_insert_eq in Ha. rewrite lookup_insert_ne in Hb by congruence.
      inversion Ha; subst p. exfalso. apply Hb'. eapply Hu; eauto.
    + rewrite lookup_insert_eq in Hb. rewrite lookup_insert_ne in Ha by congruence.
      inversion Hb; subst p. exfalso. apply Ha'. eapply Hu; eauto.
    + rewrite lookup_insert_ne in Ha, Hb by congruence. eauto.
  - intros a p Ha Hp.
    destruct (decide (a = other)) as [->|Ha'];
      [rewrite lookup_insert_eq in Ha; congruence |].
    rewrite lookup_insert_ne in Ha by congruence.
    destruct (decide (a = this)) as [->|Ha2].
    + rewrite lookup_insert_eq in Ha. inversion Ha; subst p. eauto.
    + rewrite lookup_insert_ne in Ha by congruence. eauto.
Qed.

Lemma owned_free_delete ws tr this k p :
  owned ws tr -> ws !! this = Some p -> p <> nullptr ->
  owned (delete this ws) (tr ++ [EFree k p]).
Proof.
  intros Hw Hthis Hp.
  rewrite <- (delete_insert_eq ws this nullptr).
  apply owned_delete, owned_free_null; assumption.
Qed.

Lemma owned_free_transfer ws tr this other k p q :
  owned ws tr -> ws !! this = Some p -> p <> nullptr ->
  this <> other -> ws !! other = Some q ->
  owned (<[other := nullptr]> (<[this := q]> ws)) (tr ++ [EFree k p]).
Proof.
  intros Hw Hthis Hp Hne Hother.
  rewrite <- (insert_insert_eq ws this q nullptr).
  apply owned_transfer; [| exact Hne |].
  - apply owned_free_null; assumption.
  - rewrite lookup_insert_ne by exact Hne. exact Hother.
Qed.

Lemma owned_move ws tr this other q :
  owned ws tr -> ws !! this = None -> ws !! other = Some q ->
  owned (<[other := nullptr]> (<[this := q]> ws)) tr.
Proof.
  intros Hw Hthis Hother. apply owned_transfer; [exact Hw | | exact Hother].
  intros ->. congruence.
Qed.

Lemma owned_attach_fresh ws tr this k size p (args : Args) :
  owned ws tr ->
  fresh_allocations ((tr ++ [EAllocate k size p]) ++ [EConstruct p args])
    = true ->
  owned (<[this := p]> ws)
        ((tr ++ [EAllocate k size p]) ++ [EConstruct p args]).
Proof.
  intros Hw Hfresh.
  rewrite !fresh_snoc in Hfresh. simpl in Hfresh.
  rewrite andb_true_r in Hfresh.
  apply andb_true_iff in Hfresh as [_ Hp].
  apply bool_decide_eq_true in Hp.
  apply owned_attach.
  - apply owned_construct, owned_allocate, Hw.
  - intros Hnz. destruct Hp as [Hp|Hp]; [contradiction |]. split.
    + rewrite !issued_snoc. simpl. apply elem_of_union_l, elem_of_singleton.
      reflexivity.
    + apply (owned_not_held ws tr p Hw Hnz Hp).
Qed.

Lemma destroy_before_free_nil : destroy_before_free ([] : list (event Args)).
Proof. intros pre k p post E. destruct pre; discriminate E. Qed.

Lemma destroy_before_free_snoc tr (e : event Args) :
  destroy_before_free tr -> is_Free e = false ->
  destroy_before_free (tr ++ [e]).
Proof.
  intros H He pre k p post E.
  destruct post as [|x post _] using rev_ind.
  - apply app_inj_tail in E as [_ ->]. discriminate He.
  - rewrite app_comm_cons, app_assoc in E.
    apply app_inj_tail in E as [E _]. eapply H. exact E.
Qed.

Lemma destroy_before_free_release tr k p :
  destroy_before_free tr ->
  destroy_before_free ((tr ++ [EDestroy p]) ++ [EFree k p]).
Proof.
  intros H pre k' p' post E.
  destruct post as [|x post _] using rev_ind.
  - apply app_inj_tail in E as [<- E]. inversion E; subst. eexists. reflexivity.
  - rewrite app_comm_cons, app_assoc in E.
    apply app_inj_tail in E as [E _].
    eapply (destroy_before_free_snoc tr (EDestroy p) H); [reflexivity | exact E].
Qed.

Lemma accounted_construct ws tr p (args : Args) :
  accounted ws tr -> accounted ws (tr ++ [EConstruct p args]).
Proof. intros H q. rewrite issued_snoc. simpl. apply H. Qed.

Lemma accounted_destroy ws tr p :
  accounted ws tr -> accounted ws (tr ++ [EDestroy p]).
Proof. intros H q. rewrite issued_snoc. simpl. apply H. Qed.

Lemma accounted_free_null ws tr this k p :
  accounted ws tr -> ws !! this = Some p ->
  accounted (<[this := nullptr]> ws) (tr ++ [EFree k p]).
Proof.
  intros H Hthis q. rewrite issued_snoc. simpl. intros Hq Hnz.
  apply elem_of_difference in Hq as [Hq Hne].
  destruct (H q Hq Hnz) as [a Ha]. exists a.
  rewrite lookup_insert_ne; [exact Ha |].
  intros <-. apply Hne, elem_of_singleton. congruence.
Qed.

Lemma accounted_free_delete ws tr this k p :
  accounted ws tr -> ws !! this = Some p ->
  accounted (delete this ws) (tr ++ [EFree k p]).
Proof.
  intros H Hthis q. rewrite issued_snoc. simpl. intros Hq Hnz.
  apply elem_of_difference in Hq as [Hq Hne].
  destruct (H q Hq Hnz) as [a Ha]. exists a.
  rewrite lookup_delete_ne; [exact Ha |].
  intros <-. apply Hne, elem_of_singleton. congruence.
Qed.

Lemma accounted_delete ws tr this :
  accounted ws tr -> vacant ws this -> accounted (delete this ws) tr.
Proof.
  intros H Hv q Hq Hnz. destruct (H q Hq Hnz) as [a Ha]. exists a.
  rewrite lookup_delete_ne; [exact Ha |].
  intros <-. apply Hnz. apply Hv. exact Ha.
Qed.

Lemma accounted_attach ws tr this p :
  accounted ws tr -> vacant ws this -> accounted (<[this := p]> ws) tr.
Proof.
  intros H Hv q Hq Hnz. destruct (H q Hq Hnz) as [a Ha]. exists a.
  rewrite lookup_insert_ne; [exact Ha |].
  intros <-. apply Hnz. apply Hv. exact Ha.
Qed.

Lemma accounted_transfer ws tr this other q :
  accounted ws tr -> vacant ws this -> this <> other ->
  ws !! other = Some q ->
  accounted (<[other := nullptr]> (<[this := q]> ws)) tr.
Proof.
  intros H Hv Hne Hother p Hp Hnz. destruct (H p Hp Hnz) as [a Ha].
  destruct (decide (a = other)) as [->|Hao].
  - exists this. rewrite lookup_insert_ne by congruence.
    rewrite lookup_insert_eq. congruence.
  - exists a. rewrite lookup_insert_ne by congruence.
    rewrite lookup_insert_ne; [exact Ha |].
    intros <-. apply Hnz. apply Hv. exact Ha.
Qed.

Lemma accounted_free_transfer ws tr this other k p q :
  accounted ws tr -> ws !! this = Some p -> this <> other ->
  ws !! other = Some q ->
  accounted (<[other := nullptr]> (<[this := q]> ws)) (tr ++ [EFree k p]).
Proof.
  intros H Hthis Hne Hother.
  rewrite <- (insert_insert_eq ws this q nullptr).
  apply accounted_transfer; [| | exact Hne |].
  - apply accounted_free_null; assumption.
  - intros z Hz. rewrite lookup_insert_eq in Hz. congruence.
  - rewrite lookup_insert_ne by exact Hne. exact Hother.
Qed.

Lemma accounted_allocate_attach ws tr this k size p (args : Args) :
  accounted ws tr -> vacant ws this ->
  accounted (<[this := p]> ws)
            ((tr ++ [EAllocate k size p]) ++ [EConstruct p args]).
Proof.
  intros H Hv q. rewrite !issued_snoc. simpl. intros Hq Hnz.
  apply elem_of_union in Hq as [Hq|Hq].
  - apply elem_of_singleton in Hq as ->. exists this. apply lookup_insert_eq.
  - destruct (H q Hq Hnz) as [a Ha]. exists a.
    rewrite lookup_insert_ne; [exact Ha |].
    intros <-. apply Hnz. apply Hv. exact Ha.
Qed.

Lemma vacant_dead ws this : ws !! this = None -> vacant ws this.
Proof. intros H p Hp. congruence. Qed.

Lemma vacant_null ws this p :
  ws !! this = Some p -> ~ p <> nullptr -> vacant ws this.
Proof.
  intros H Hn q Hq. assert (q = p) as -> by congruence.
  destruct (decide (p = nullptr)); tauto.
Qed.

Lemma vacant_after_null ws this : vacant (<[this := nullptr]> ws) this.
Proof. intros q Hq. rewrite lookup_insert_eq in Hq. congruence. Qed.

Lemma constructions_returned_snoc (T_throws : Args -> bool) tr p args :
  constructions_returned T_throws (tr ++ [EConstruct p args]) = true ->
  T_throws args = true -> False.
Proof.
  unfold constructions_returned. rewrite forallb_app. simpl.
  intros H Ht. rewrite Ht in H. simpl in H.
  rewrite andb_false_r in H. discriminate H.
Qed.

Lemma constructions_returned_prefix (T_throws : Args -> bool) tr tr' :
  tr `prefix_of` tr' ->
  constructions_returned T_throws tr' = true ->
  constructions_returned T_throws tr = true.
Proof.
  intros [ext ->]. unfold constructions_returned. rewrite forallb_app.
  intros H. apply andb_true_iff in H. tauto.
Qed.

Lemma accounted_move ws tr this other q :
  accounted ws tr -> ws !! this = None -> ws !! other = Some q ->
  accounted (<[other := nullptr]> (<[this := q]> ws)) tr.
Proof.
  intros H Hthis Hother.
  apply accounted_transfer; [exact H | apply vacant_dead, Hthis | | exact Hother].
  intros ->. congruence.
Qed.

Lemma accounted_initial :
  accounted (∅ : gmap nat Z) ([] : list (event Args)).
Proof. intros p Hp. apply not_elem_of_empty in Hp. destruct Hp. Qed.

End TraceProperties.

Create HintDb owned_db.

#[export] Hint Resolve owned_construct owned_destroy owned_allocate
  owned_free_null owned_delete owned_null owned_transfer owned_free_delete
  owned_free_transfer owned_move owned_attach_fresh : owned_db.

Create HintDb effects_db.

#[export] Hint Resolve destroy_before_free_snoc destroy_before_free_release
  accounted_construct accounted_destroy accounted_free_null
  accounted_free_delete accounted_delete accounted_attach accounted_transfer
  accounted_free_transfer accounted_allocate_attach accounted_move
  vacant_dead vacant_null vacant_after_null : effects_db.

Lemma fresh_prefix {Args : Type} (tr tr' : list (AllocatedPtr.event Args)) :
  tr `prefix_of` tr' ->
  AllocatedPtr.fresh_allocations tr' = true ->
  AllocatedPtr.fresh_allocations tr = true.
Proof.
  intros [ext ->]. unfold AllocatedPtr.fresh_allocations.
  rewrite fresh_from_app. intros H. apply andb_true_iff in H. tauto.
Qed.

Lemma prefix_snoc {A : Type} (l l' : list A) (x : A) :
  l `prefix_of` l' -> l `prefix_of` l' ++ [x].
Proof. intros H. apply prefix_app_r. exact H. Qed.

(** *** The member functions *)

Section WrapperProperties.
Import AllocatedPtr.
Context {Mgr Args : Type}.
Variable mm_Allocate : AllocatorType -> Z -> Z -> Mgr -> Z * Mgr.
Variable mm_Free : AllocatorType -> Z -> Mgr -> Mgr.
Variable T_throws : Args -> bool.
Variable sizeof_T : Z.
Variable Type_ : AllocatorType.
Implicit Types (w : world Mgr Args) (this other : nat) (args : Args).

Ltac unfold_ops :=
  unfold perform, AllocatedPtr_default, AllocatedPtr_init,
    AllocatedPtr_destructor, AllocatedPtr_move, move_assign, Reset_args,
    Reset_then_construct, Reset, Get, operator_bool, construction,
    construct_T, destroy_T, manager_Allocate, manager_Free, end_lifetime,
    not_alive, write_m_ptr, read_m_ptr, emit, bind, ret.

(** Case analysis on what a member function reads: the wrappers it looks
    at, whether a pointer is null, what the manager returns, whether the
    constructor throws. *)
Ltac split_cases :=
  repeat (simpl;
    match goal with
    | |- context [wrappers ?w !! ?k] => destruct (wrappers w !! k) eqn:?
    | |- context [decide ?P] => destruct (decide P)
    | |- context [mm_Allocate ?a ?b ?c ?d] =>
        destruct (mm_Allocate a b c d) eqn:?
    | |- context [T_throws ?a] => destruct (T_throws a) eqn:?
    end); simpl.

Local Notation "'perform''" :=
  (perform mm_Allocate mm_Free T_throws sizeof_T Type_).
Local Notation "'run''" :=
  (run mm_Allocate mm_Free T_throws sizeof_T Type_).

(** What each member function does, case by case. *)

Lemma Reset_empty w this :
  wrappers w !! this = Some nullptr ->
  Reset mm_Free Type_ this w = (Returned tt, w).
Proof. intros H. unfold_ops. rewrite H. reflexivity. Qed.

Lemma Reset_held w this p :
  wrappers w !! this = Some p -> p <> nullptr ->
  Reset mm_Free Type_ this w
  = (Returned tt,
     mk_world (mm_Free Type_ p (manager w))
              (<[this := nullptr]> (wrappers w))
              ((effects w ++ [EDestroy p]) ++ [EFree Type_ p])).
Proof.
  intros H Hp. unfold_ops. rewrite H.
  destruct (decide (p <> nullptr)); [reflexivity | contradiction].
Qed.

Lemma destructor_empty w this :
  wrappers w !! this = Some nullptr ->
  AllocatedPtr_destructor mm_Free Type_ this w
  = (Returned tt,
     mk_world (manager w) (delete this (wrappers w)) (effects w)).
Proof. intros H. unfold_ops. rewrite H. reflexivity. Qed.

Lemma destructor_held w this p :
  wrappers w !! this = Some p -> p <> nullptr ->
  AllocatedPtr_destructor mm_Free Type_ this w
  = (Returned tt,
     mk_world (mm_Free Type_ p (manager w))
              (delete this (wrappers w))
              ((effects w ++ [EDestroy p]) ++ [EFree Type_ p])).
Proof.
  intros H Hp. unfold_ops. rewrite H.
  destruct (decide (p <> nullptr)); [reflexivity | contradiction].
Qed.

Lemma move_assign_self w this :
  move_assign mm_Free Type_ this this w = (Returned tt, w).
Proof.
  unfold move_assign.
  destruct (decide (this <> this)); [contradiction | reflexivity].
Qed.

Lemma move_assign_empty w this other q :
  this <> other ->
  wrappers w !! this = Some nullptr -> wrappers w !! other = Some q ->
  move_assign mm_Free Type_ this other w
  = (Returned tt,
     mk_world (manager w)
              (<[other := nullptr]> (<[this := q]> (wrappers w)))
              (effects w)).
Proof.
  intros Hne Hthis Hother. unfold_ops.
  destruct (decide (this <> other)); [| contradiction].
  rewrite Hthis. simpl. rewrite Hother. reflexivity.
Qed.

Lemma move_assign_held w this other p q :
  this <> other ->
  wrappers w !! this = Some p -> p <> nullptr ->
  wrappers w !! other = Some q ->
  move_assign mm_Free Type_ this other w
  = (Returned tt,
     mk_world (mm_Free Type_ p (manager w))
              (<[other := nullptr]> (<[this := q]> (wrappers w)))
              ((effects w ++ [EDestroy p]) ++ [EFree Type_ p])).
Proof.
  intros Hne Hthis Hp Hother. unfold_ops.
  destruct (decide (this <> other)); [| contradiction].
  rewrite Hthis.
  destruct (decide (p <> nullptr)); [| contradiction].
  simpl. rewrite Hother. reflexivity.
Qed.

Lemma move_constructor w this other q :
  wrappers w !! this = None -> wrappers w !! other = Some q ->
  AllocatedPtr_move this other w
  = (Returned tt,
     mk_world (manager w)
              (<[other := nullptr]> (<[this := q]> (wrappers w)))
              (effects w)).
Proof.
  intros Hthis Hother. unfold_ops. rewrite Hthis. simpl.
  rewrite Hother. reflexivity.
Qed.

Lemma move_constructor_lookup w this other q :
  wrappers w !! this = None -> wrappers w !! other = Some q ->
  wrappers (AllocatedPtr_move this other w).2 !! this = Some q
  /\ wrappers (AllocatedPtr_move this other w).2 !! other = Some nullptr.
Proof.
  intros Hthis Hother.
  rewrite (move_constructor w this other q Hthis Hother). simpl.
  assert (this <> other) as Hne by (intros ->; congruence).
  rewrite lookup_insert_ne by congruence.
  rewrite !lookup_insert_eq. split; reflexivity.
Qed.

Lemma move_assign_lookup w this other p q :
  this <> other ->
  wrappers w !! this = Some p -> wrappers w !! other = Some q ->
  wrappers (move_assign mm_Free Type_ this other w).2 !! this = Some q
  /\ wrappers (move_assign mm_Free Type_ this other w).2 !! other
     = Some nullptr.
Proof.
  intros Hne Hthis Hother.
  destruct (decide (p = nullptr)) as [->|Hp].
  - rewrite (move_assign_empty w this other q) by assumption. simpl.
    rewrite lookup_insert_ne by congruence.
    rewrite !lookup_insert_eq. split; reflexivity.
  - rewrite (move_assign_held w this other p q) by assumption. simpl.
    rewrite lookup_insert_ne by congruence.
    rewrite !lookup_insert_eq. split; reflexivity.
Qed.

Lemma construction_throws w this args storage m :
  mm_Allocate Type_ sizeof_T 0 (manager w) = (storage, m) ->
  storage <> nullptr -> T_throws args = true ->
  construction mm_Allocate T_throws sizeof_T Type_ this args w
  = (Thrown,
     mk_world m (wrappers w)
              ((effects w ++ [EAllocate Type_ sizeof_T storage])
                 ++ [EConstruct storage args])).
Proof.
  intros Halloc Hnz Hthrows. unfold_ops. rewrite Halloc. simpl.
  destruct (decide (storage = nullptr)); [contradiction |].
  simpl. rewrite Hthrows. reflexivity.
Qed.

Lemma construction_returns w this args storage m :
  mm_Allocate Type_ sizeof_T 0 (manager w) = (storage, m) ->
  storage <> nullptr -> T_throws args = false ->
  construction mm_Allocate T_throws sizeof_T Type_ this args w
  = (Returned tt,
     mk_world m (<[this := storage]> (wrappers w))
              ((effects w ++ [EAllocate Type_ sizeof_T storage])
                 ++ [EConstruct storage args])).
Proof.
  intros Halloc Hnz Hthrows. unfold_ops. rewrite Halloc. simpl.
  destruct (decide (storage = nullptr)); [contradiction |].
  simpl. rewrite Hthrows. reflexivity.
Qed.

(** The effects only grow. *)
Lemma perform_prefix (o : operation) w :
  effects w `prefix_of` effects (perform' o w).2.
Proof.
  destruct o; unfold_ops; split_cases;
    repeat apply prefix_snoc; reflexivity.
Qed.

Lemma run_prefix (ops : list operation) : forall w,
  effects w `prefix_of` effects (run' ops w).2.
Proof.
  induction ops as [|o ops IH]; intros w; simpl.
  - reflexivity.
  - pose proof (perform_prefix o w) as Ho.
    destruct (perform' o w) as [[| |] w']; simpl in *;
      try exact Ho; etransitivity; [exact Ho | apply IH | exact Ho | apply IH].
Qed.

(** Every member function with defined behaviour keeps the ownership
    invariant, provided the manager hands out fresh addresses. *)
Lemma perform_owned (o : operation) w :
  owned (wrappers w) (effects w) ->
  (perform' o w).1 <> Undefined ->
  fresh_allocations (effects (perform' o w).2) = true ->
  owned (wrappers (perform' o w).2) (effects (perform' o w).2).
Proof.
  destruct o; unfold_ops; simpl; split_cases; intros Hw Hdef Hfresh;
    try (exfalso; apply Hdef; reflexivity); subst; eauto 6 with owned_db.
Qed.


Lemma owned_initial :
  owned (∅ : gmap nat Z) ([] : list (event Args)).
Proof.
  repeat split.
  - intros a b p Ha. rewrite lookup_empty in Ha. discriminate.
  - intros a p Ha. rewrite lookup_empty in Ha. discriminate.
Qed.

(** In every program, a [Free] follows the destructor call on its
    address. *)
Lemma perform_destroy_before_free (o : operation) w :
  destroy_before_free (effects w) ->
  destroy_before_free (effects (perform' o w).2).
Proof.
  destruct o; unfold_ops; split_cases; intros Hw;
    eauto 6 using eq_refl with effects_db.
Qed.

Lemma run_destroy_before_free (ops : list operation) : forall w,
  destroy_before_free (effects w) ->
  destroy_before_free (effects (run' ops w).2).
Proof.
  induction ops as [|o ops IH]; intros w Hw; simpl.
  - exact Hw.
  - pose proof (perform_destroy_before_free o w Hw) as Ho.
    destruct (perform' o w) as [[u| |] w']; simpl in *;
      [apply IH, Ho | apply IH, Ho | exact Ho].
Qed.

(** As long as no constructor throws, every address in use has a wrapper
    that holds it. *)
Lemma perform_accounted (o : operation) w :
  accounted (wrappers w) (effects w) ->
  (perform' o w).1 <> Undefined ->
  constructions_returned T_throws (effects (perform' o w).2) = true ->
  accounted (wrappers (perform' o w).2) (effects (perform' o w).2).
Proof.
  destruct o; unfold_ops; simpl; split_cases; intros Hw Hdef Hret;
    try (exfalso; apply Hdef; reflexivity);
    try (exfalso; eapply constructions_returned_snoc; eassumption);
    subst; eauto 6 with effects_db.
Qed.

Lemma run_accounted (ops : list operation) : forall w,
  accounted (wrappers w) (effects w) ->
  (run' ops w).1 <> Undefined ->
  constructions_returned T_throws (effects (run' ops w).2) = true ->
  accounted (wrappers (run' ops w).2) (effects (run' ops w).2).
Proof.
  induction ops as [|o ops IH]; intros w Hw Hdef Hret; simpl in *.
  - exact Hw.
  - pose proof (perform_accounted o w Hw) as Ho.
    pose proof (run_prefix ops (perform' o w).2) as Hpre.
    destruct (perform' o w) as [[u| |] w'] eqn:E; simpl in *.
    + apply IH; try assumption.
      apply Ho; [discriminate | eapply constructions_returned_prefix; eassumption].
    + apply IH; try assumption.
      apply Ho; [discriminate | eapply constructions_returned_prefix; eassumption].
    + exfalso. apply Hdef. reflexivity.
Qed.

Lemma Reset_returns_empty w this w1 :
  Reset mm_Free Type_ this w = (Returned tt, w1) ->
  wrappers w1 !! this = Some nullptr.
Proof.
  destruct (wrappers w !! this) as [p|] eqn:Hthis.
  - destruct (decide (p = nullptr)) as [->|Hp].
    + rewrite Reset_empty by exact Hthis. intros H. inversion H; subst.
      exact Hthis.
    + rewrite (Reset_held w this p Hthis Hp). intros H. inversion H; subst.
      simpl. apply lookup_insert_eq.
  - unfold_ops. rewrite Hthis. intros H. discriminate H.
Qed.

(** C1 (amended). When the constructor of [T] throws, in
    [AllocatedPtr(args...)] as in [Reset(args...)], the exception leaves
    with the storage still reserved: the manager is in the state
    [Allocate] left it in, the effects end with the [Allocate] call and
    the construction, and no [Free] follows.  After a throwing
    [Reset(args...)] the wrapper is empty. *)
Theorem throwing_constructor_keeps_storage :
  (forall w this args storage m,
      T_throws args = true ->
      wrappers w !! this = None ->
      mm_Allocate Type_ sizeof_T 0 (manager w) = (storage, m) ->
      storage <> nullptr ->
      AllocatedPtr_init mm_Allocate T_throws sizeof_T Type_ this args w
      = (Thrown,
         mk_world m (wrappers w)
           (effects w
              ++ [EAllocate Type_ sizeof_T storage; EConstruct storage args])))
  /\ (forall w this args w1 storage m,
      T_throws args = true ->
      Reset mm_Free Type_ this w = (Returned tt, w1) ->
      mm_Allocate Type_ sizeof_T 0 (manager w1) = (storage, m) ->
      storage <> nullptr ->
      Reset_args mm_Allocate mm_Free T_throws sizeof_T Type_ this args w
      = (Thrown,
         mk_world m (wrappers w1)
           (effects w1
              ++ [EAllocate Type_ sizeof_T storage; EConstruct storage args]))
      /\ wrappers w1 !! this = Some nullptr).
Proof.
  split.
  - intros w this args storage m Hthrows Hthis Halloc Hnz.
    unfold AllocatedPtr_init, bind, not_alive. rewrite Hthis.
    rewrite (construction_throws w this args storage m Halloc Hnz Hthrows).
    rewrite <- app_assoc. reflexivity.
  - intros w this args w1 storage m Hthrows Hreset Halloc Hnz. split.
    + pose proof (construction_throws w1 this args storage m Halloc Hnz Hthrows)
        as Hc.
      unfold Reset_args, bind. rewrite Hreset.
      unfold construction, bind in Hc. rewrite Hc.
      rewrite <- app_assoc. reflexivity.
    + eapply Reset_returns_empty. exact Hreset.
Qed.

(** C2. On a wrapper that holds a value, the destructor, [Reset()] and a
    move assignment from another wrapper each call the value's destructor
    and then [MemoryManager::Free] on its address, in this order and
    nothing else, and the manager ends in the state [Free] leaves; and in
    the effects of every program of wrapper operations, each [Free] comes
    right after the destructor call on the same address. *)
Theorem release_destroys_then_frees :
  (forall w this p,
      wrappers w !! this = Some p -> p <> nullptr ->
      let released := effects w ++ [EDestroy p; EFree Type_ p] in
      (effects (AllocatedPtr_destructor mm_Free Type_ this w).2 = released
       /\ manager (AllocatedPtr_destructor mm_Free Type_ this w).2
          = mm_Free Type_ p (manager w))
      /\ (effects (Reset mm_Free Type_ this w).2 = released
          /\ manager (Reset mm_Free Type_ this w).2
             = mm_Free Type_ p (manager w))
      /\ (forall other q,
            this <> other -> wrappers w !! other = Some q ->
            effects (move_assign mm_Free Type_ this other w).2 = released
            /\ manager (move_assign mm_Free Type_ this other w).2
               = mm_Free Type_ p (manager w)))
  /\ (forall m ops,
        destroy_before_free (effects (run' ops (mk_world m ∅ [])).2)).
Proof.
  split.
  - intros w this p Hthis Hp released. subst released. repeat split.
    + rewrite (destructor_held w this p Hthis Hp). simpl.
      rewrite <- app_assoc. reflexivity.
    + rewrite (destructor_held w this p Hthis Hp). reflexivity.
    + rewrite (Reset_held w this p Hthis Hp). simpl.
      rewrite <- app_assoc. reflexivity.
    + rewrite (Reset_held w this p Hthis Hp). reflexivity.
    + rewrite (move_assign_held w this other p q) by assumption. simpl.
      rewrite <- app_assoc. reflexivity.
    + rewrite (move_assign_held w this other p q) by assumption. reflexivity.
  - intros m ops. apply run_destroy_before_free. simpl.
    apply destroy_before_free_nil.
Qed.


(** The effects of "[Reset()], then the construction" on a wrapper that
    holds a value, when the manager has storage and the constructor
    returns. *)
Lemma Reset_then_construct_effects w this args p storage m :
  wrappers w !! this = Some p -> p <> nullptr ->
  mm_Allocate Type_ sizeof_T 0 (mm_Free Type_ p (manager w)) = (storage, m) ->
  storage <> nullptr -> T_throws args = false ->
  Reset_then_construct mm_Allocate mm_Free T_throws sizeof_T Type_ this args w
  = (Returned tt,
     mk_world m (<[this := storage]> (wrappers w))
       (effects w
          ++ [EDestroy p; EFree Type_ p;
              EAllocate Type_ sizeof_T storage; EConstruct storage args])).
Proof.
  intros Hthis Hp Halloc Hnz Hthrows.
  unfold Reset_then_construct, bind.
  rewrite (Reset_held w this p Hthis Hp).
  rewrite (construction_returns
             (mk_world (mm_Free Type_ p (manager w))
                       (<[this := nullptr]> (wrappers w))
                       ((effects w ++ [EDestroy p]) ++ [EFree Type_ p]))
             this args storage m Halloc Hnz Hthrows).
  simpl. rewrite insert_insert_eq. rewrite <- !app_assoc. reflexivity.
Qed.

(** C5. [Reset(args...)] is [Reset()] followed by the construction of the
    initializing constructor: same outcome, same wrappers, same manager
    state and same effects in the same order, in every state and for
    every argument list, also when the constructor throws; on a wrapper
    that holds a value the effects are the destructor call, [Free],
    [Allocate] and the construction in place, in this order. *)
Theorem Reset_args_refines :
  (forall w this args,
      Reset_args mm_Allocate mm_Free T_throws sizeof_T Type_ this args w
      = Reset_then_construct mm_Allocate mm_Free T_throws sizeof_T Type_
          this args w)
  /\ (forall w this args p storage m,
      wrappers w !! this = Some p -> p <> nullptr ->
      mm_Allocate Type_ sizeof_T 0 (mm_Free Type_ p (manager w))
        = (storage, m) ->
      storage <> nullptr -> T_throws args = false ->
      Reset_args mm_Allocate mm_Free T_throws sizeof_T Type_ this args w
      = (Returned tt,
         mk_world m (<[this := storage]> (wrappers w))
           (effects w
              ++ [EDestroy p; EFree Type_ p;
                  EAllocate Type_ sizeof_T storage; EConstruct storage args]))).
Proof.
  split.
  - intros w this args. reflexivity.
  - intros w this args p storage m Hthis Hp Halloc Hnz Hthrows.
    change (Reset_args mm_Allocate mm_Free T_throws sizeof_T Type_ this args w)
      with (Reset_then_construct mm_Allocate mm_Free T_throws sizeof_T Type_
              this args w).
    apply Reset_then_construct_effects; assumption.
Qed.

(** C9. A default-constructed wrapper, the source of a move and a wrapper
    after [Reset()] hold [nullptr]; and on a wrapper that holds
    [nullptr], [operator bool] is false, [Get()] is [nullptr], and
    [Reset()] and the destructor call neither the destructor of [T] nor
    [MemoryManager::Free]: no effect is added and the manager is
    untouched. *)
Theorem empty_wrapper_is_inert :
  (forall w this,
      wrappers w !! this = None ->
      wrappers (AllocatedPtr_default this w).2 !! this = Some nullptr)
  /\ (forall w this other q,
      wrappers w !! this = None -> wrappers w !! other = Some q ->
      wrappers (AllocatedPtr_move this other w).2 !! other = Some nullptr)
  /\ (forall w this other p q,
      this <> other ->
      wrappers w !! this = Some p -> wrappers w !! other = Some q ->
      wrappers (move_assign mm_Free Type_ this other w).2 !! other
      = Some nullptr)
  /\ (forall w this p,
      wrappers w !! this = Some p ->
      wrappers (Reset mm_Free Type_ this w).2 !! this = Some nullptr)
  /\ (forall w this,
      wrappers w !! this = Some nullptr ->
      operator_bool this w = (Returned false, w)
      /\ Get this w = (Returned nullptr, w)
      /\ Reset mm_Free Type_ this w = (Returned tt, w)
      /\ AllocatedPtr_destructor mm_Free Type_ this w
         = (Returned tt,
            mk_world (manager w) (delete this (wrappers w)) (effects w))).
Proof.
  split; [| split; [| split; [| split]]].
  - intros w this Hthis. unfold_ops. rewrite Hthis. simpl.
    apply lookup_insert_eq.
  - intros w this other q Hthis Hother.
    apply (move_constructor_lookup w this other q Hthis Hother).
  - intros w this other p q Hne Hthis Hother.
    apply (move_assign_lookup w this other p q Hne Hthis Hother).
  - intros w this p Hthis.
    destruct (decide (p = nullptr)) as [->|Hp].
    + rewrite Reset_empty by exact Hthis. exact Hthis.
    + rewrite (Reset_held w this p Hthis Hp). simpl. apply lookup_insert_eq.
  - intros w this Hthis. split; [| split; [| split]].
    + unfold_ops. rewrite Hthis. reflexivity.
    + unfold_ops. rewrite Hthis. reflexivity.
    + apply Reset_empty. exact Hthis.
    + apply destructor_empty. exact Hthis.
Qed.

(** C10. Move-assigning a wrapper to itself changes nothing: the call
    returns with the wrappers, the manager and the effects as they were,
    so the wrapper holds the address it held, and neither the destructor
    of [T] nor [MemoryManager::Free] is called. *)
Theorem self_move_assign_is_identity w this :
  move_assign mm_Free Type_ this this w = (Returned tt, w)
  /\ Get this (move_assign mm_Free Type_ this this w).2 = Get this w.
Proof.
  rewrite move_assign_self. split; reflexivity.
Qed.

End WrapperProperties.

(** *** The concrete configuration *)

(** C1 (counterexample). With the pool of the example registered for the
    [Pool] kind, [AllocatedPtr<T, Pool>] constructed with the throwing
    constructor: the exception propagates, the effects are the [Allocate]
    call and the construction with no [Free] after them, and
    [GetAllocatedSize()] of the pool has gone from 0 to 64.  The same for
    [Reset(args...)] on the empty wrapper of [world1]: from 64 to 128. *)
Lemma throwing_constructor_leaks :
  let r :=
    AllocatedPtr.AllocatedPtr_init Demo.mm_Allocate Demo.T_throws
      Demo.sizeof_T Pool 1%nat true Demo.world0 in
  let r' :=
    AllocatedPtr.Reset_args Demo.mm_Allocate Demo.mm_Free
      Demo.T_throws Demo.sizeof_T Pool 1%nat true Demo.world1 in
  (r.1 = AllocatedPtr.Thrown
   /\ AllocatedPtr.effects r.2
      = [AllocatedPtr.EAllocate Pool 48 4096; AllocatedPtr.EConstruct 4096 true]
   /\ Demo.pool_allocated_size (AllocatedPtr.manager Demo.world0) = Some 0
   /\ Demo.pool_allocated_size (AllocatedPtr.manager r.2) = Some 64
   /\ Demo.pool_allocated_size (AllocatedPtr.manager r.2)
      <> Demo.pool_allocated_size (AllocatedPtr.manager Demo.world0))
  /\ (r'.1 = AllocatedPtr.Thrown
      /\ AllocatedPtr.effects r'.2
         = AllocatedPtr.effects Demo.world1
             ++ [AllocatedPtr.EAllocate Pool 48 4160;
                 AllocatedPtr.EConstruct 4160 true]
      /\ Demo.pool_allocated_size (AllocatedPtr.manager Demo.world1)
         = Some 64
      /\ Demo.pool_allocated_size (AllocatedPtr.manager r'.2) = Some 128
      /\ Demo.pool_allocated_size (AllocatedPtr.manager r'.2)
         <> Demo.pool_allocated_size (AllocatedPtr.manager Demo.world1)).
Proof.
  vm_compute. repeat split; congruence.
Qed.

Lemma throwing_constructor_keeps_storage_witness :
  AllocatedPtr.AllocatedPtr_init Demo.mm_Allocate Demo.T_throws
    Demo.sizeof_T Pool 1%nat true Demo.world0
  = (AllocatedPtr.Thrown,
     AllocatedPtr.mk_world
       (Demo.mm_Allocate Pool Demo.sizeof_T 0
          (AllocatedPtr.manager Demo.world0)).2
       (AllocatedPtr.wrappers Demo.world0)
       (AllocatedPtr.effects Demo.world0
          ++ [AllocatedPtr.EAllocate Pool Demo.sizeof_T 4096;
              AllocatedPtr.EConstruct 4096 true]))
  /\ (AllocatedPtr.Reset_args Demo.mm_Allocate Demo.mm_Free
        Demo.T_throws Demo.sizeof_T Pool 1%nat true Demo.world1
      = (AllocatedPtr.Thrown,
         AllocatedPtr.mk_world
           (Demo.mm_Allocate Pool Demo.sizeof_T 0
              (AllocatedPtr.manager Demo.world1)).2
           (AllocatedPtr.wrappers Demo.world1)
           (AllocatedPtr.effects Demo.world1
              ++ [AllocatedPtr.EAllocate Pool Demo.sizeof_T 4160;
                  AllocatedPtr.EConstruct 4160 true]))
      /\ AllocatedPtr.wrappers Demo.world1 !! 1%nat = Some nullptr).
Proof.
  destruct (throwing_constructor_keeps_storage Demo.mm_Allocate
              Demo.mm_Free Demo.T_throws Demo.sizeof_T Pool)
    as [Hinit Hreset].
  split.
  - apply (Hinit Demo.world0 1%nat true 4096).
    + reflexivity.
    + reflexivity.
    + rewrite (surjective_pairing
                 (Demo.mm_Allocate Pool Demo.sizeof_T 0
                    (AllocatedPtr.manager Demo.world0))) at 1.
      f_equal.
    + discriminate.
  - apply (Hreset Demo.world1 1%nat true Demo.world1 4160).
    + reflexivity.
    + apply Reset_empty. vm_compute. reflexivity.
    + rewrite (surjective_pairing
                 (Demo.mm_Allocate Pool Demo.sizeof_T 0
                    (AllocatedPtr.manager Demo.world1))) at 1.
      f_equal.
    + discriminate.
Defined.

Lemma release_destroys_then_frees_witness :
  let w := Demo.world1 in
  let released :=
    AllocatedPtr.effects w
      ++ [AllocatedPtr.EDestroy 4096; AllocatedPtr.EFree Pool 4096] in
  (AllocatedPtr.effects
     (AllocatedPtr.AllocatedPtr_destructor Demo.mm_Free Pool 2%nat w).2
   = released
   /\ AllocatedPtr.manager
        (AllocatedPtr.AllocatedPtr_destructor Demo.mm_Free Pool 2%nat w).2
      = Demo.mm_Free Pool 4096 (AllocatedPtr.manager w))
  /\ (AllocatedPtr.effects (AllocatedPtr.Reset Demo.mm_Free Pool 2%nat w).2
      = released
      /\ AllocatedPtr.manager (AllocatedPtr.Reset Demo.mm_Free Pool 2%nat w).2
         = Demo.mm_Free Pool 4096 (AllocatedPtr.manager w))
  /\ (AllocatedPtr.effects
        (AllocatedPtr.move_assign Demo.mm_Free Pool 2%nat 1%nat w).2
      = released
      /\ AllocatedPtr.manager
           (AllocatedPtr.move_assign Demo.mm_Free Pool 2%nat 1%nat w).2
         = Demo.mm_Free Pool 4096 (AllocatedPtr.manager w))
  /\ AllocatedPtr.destroy_before_free
       (AllocatedPtr.effects
          (AllocatedPtr.run Demo.mm_Allocate Demo.mm_Free Demo.T_throws
             Demo.sizeof_T Pool Demo.program Demo.world0).2).
Proof.
  intros w released.
  destruct (release_destroys_then_frees Demo.mm_Allocate Demo.mm_Free
              Demo.T_throws Demo.sizeof_T Pool) as [Hpaths Hprogram].
  destruct (Hpaths Demo.world1 2%nat 4096) as (Hd & Hr & Hm).
  - vm_compute. reflexivity.
  - discriminate.
  - split; [exact Hd | split; [exact Hr | split]].
    + apply (Hm 1%nat 0).
      * discriminate.
      * vm_compute. reflexivity.
    + apply (Hprogram Demo.manager Demo.program).
Defined.



Lemma Reset_args_refines_witness :
  AllocatedPtr.Reset_args Demo.mm_Allocate Demo.mm_Free Demo.T_throws
    Demo.sizeof_T Pool 2%nat false Demo.world1
  = AllocatedPtr.Reset_then_construct Demo.mm_Allocate Demo.mm_Free
      Demo.T_throws Demo.sizeof_T Pool 2%nat false Demo.world1
  /\ AllocatedPtr.Reset_args Demo.mm_Allocate Demo.mm_Free Demo.T_throws
       Demo.sizeof_T Pool 2%nat false Demo.world1
     = (AllocatedPtr.Returned tt,
        AllocatedPtr.mk_world
          (Demo.mm_Allocate Pool Demo.sizeof_T 0
             (Demo.mm_Free Pool 4096 (AllocatedPtr.manager Demo.world1))).2
          (<[2%nat := 4096]> (AllocatedPtr.wrappers Demo.world1))
          (AllocatedPtr.effects Demo.world1
             ++ [AllocatedPtr.EDestroy 4096; AllocatedPtr.EFree Pool 4096;
                 AllocatedPtr.EAllocate Pool Demo.sizeof_T 4096;
                 AllocatedPtr.EConstruct 4096 false])).
Proof.
  destruct (Reset_args_refines Demo.mm_Allocate Demo.mm_Free Demo.T_throws
              Demo.sizeof_T Pool) as [Hsame Heffects].
  split.
  - apply (Hsame Demo.world1 2%nat false).
  - apply (Heffects Demo.world1 2%nat false 4096 4096).
    + vm_compute. reflexivity.
    + discriminate.
    + rewrite (surjective_pairing
                 (Demo.mm_Allocate Pool Demo.sizeof_T 0
                    (Demo.mm_Free Pool 4096
                       (AllocatedPtr.manager Demo.world1)))) at 1.
      f_equal.
    + discriminate.
    + reflexivity.
Defined.

Lemma empty_wrapper_is_inert_witness :
  let w := Demo.world1 in
  AllocatedPtr.wrappers (AllocatedPtr.AllocatedPtr_default 5%nat w).2 !! 5%nat
    = Some nullptr
  /\ AllocatedPtr.wrappers (AllocatedPtr.AllocatedPtr_move 3%nat 2%nat w).2
       !! 2%nat = Some nullptr
  /\ AllocatedPtr.wrappers
       (AllocatedPtr.move_assign Demo.mm_Free Pool 1%nat 2%nat w).2
       !! 2%nat = Some nullptr
  /\ AllocatedPtr.wrappers (AllocatedPtr.Reset Demo.mm_Free Pool 2%nat w).2
       !! 2%nat = Some nullptr
  /\ (AllocatedPtr.operator_bool 1%nat w = (AllocatedPtr.Returned false, w)
      /\ AllocatedPtr.Get 1%nat w = (AllocatedPtr.Returned nullptr, w)
      /\ AllocatedPtr.Reset Demo.mm_Free Pool 1%nat w
         = (AllocatedPtr.Returned tt, w)
      /\ AllocatedPtr.AllocatedPtr_destructor Demo.mm_Free Pool 1%nat w
         = (AllocatedPtr.Returned tt,
            AllocatedPtr.mk_world (AllocatedPtr.manager w)
              (delete 1%nat (AllocatedPtr.wrappers w))
              (AllocatedPtr.effects w))).
Proof.
  intros w.
  destruct (@empty_wrapper_is_inert (@MemoryManager.t Z) bool
              Demo.mm_Free Pool) as (Hd & Hmv & Has & Hrs & Hin).
  split; [| split; [| split; [| split]]].
  - apply (Hd Demo.world1 5%nat). vm_compute. reflexivity.
  - apply (Hmv Demo.world1 3%nat 2%nat 4096); vm_compute; reflexivity.
  - apply (Has Demo.world1 1%nat 2%nat 0 4096);
      [discriminate | vm_compute; reflexivity | vm_compute; reflexivity].
  - apply (Hrs Demo.world1 2%nat 4096). vm_compute. reflexivity.
  - apply (Hin Demo.world1 1%nat). vm_compute. reflexivity.
Defined.

(** The program of the example: what it does, and where it ends. *)
Example program_effects :
  let r :=
    AllocatedPtr.run Demo.mm_Allocate Demo.mm_Free Demo.T_throws
      Demo.sizeof_T Pool Demo.program Demo.world0 in
  r.1 = AllocatedPtr.Returned tt
  /\ AllocatedPtr.effects r.2
     = [AllocatedPtr.EAllocate Pool 48 4096; AllocatedPtr.EConstruct 4096 false;
        AllocatedPtr.EAllocate Pool 48 4160; AllocatedPtr.EConstruct 4160 true;
        AllocatedPtr.EDestroy 4096; AllocatedPtr.EFree Pool 4096;
        AllocatedPtr.EAllocate Pool 48 4096; AllocatedPtr.EConstruct 4096 false;
        AllocatedPtr.EDestroy 4096; AllocatedPtr.EFree Pool 4096]
  /\ map_to_list (AllocatedPtr.wrappers r.2) = [(3%nat, 0)]
  /\ Demo.pool_allocated_size (AllocatedPtr.manager r.2) = Some 64.
Proof. vm_compute. repeat split. Qed.

(** * Further properties *)

(** ** More invariants of the effects *)

Section ValueProperties.
Import AllocatedPtr.
Context {Args : Type}.
Variable T_throws : Args -> bool.
Implicit Types (tr : list (event Args)) (s : gset Z) (ws : gmap nat Z).

Lemma values_snoc tr (e : event Args) :
  values T_throws (tr ++ [e]) = value_step T_throws (values T_throws tr) e.
Proof. unfold values, values_from. rewrite fold_left_app. reflexivity. Qed.

Lemma destroys_from_app tr : forall s tr',
  destroys_from T_throws s (tr ++ tr')
  = destroys_from T_throws s tr
    && destroys_from T_throws (values_from T_throws s tr) tr'.
Proof.
  induction tr as [|e tr IH]; intros s tr'; simpl.
  - reflexivity.
  - rewrite IH, andb_assoc. reflexivity.
Qed.

Lemma destroys_snoc tr (e : event Args) :
  destroys_values T_throws (tr ++ [e])
  = destroys_values T_throws tr && destroy_event (values T_throws tr) e.
Proof.
  unfold destroys_values. rewrite destroys_from_app. simpl.
  rewrite andb_true_r. reflexivity.
Qed.

Lemma owned_unique ws tr : owned ws tr -> unique_owner ws.
Proof. intros (Hu & _). exact Hu. Qed.

Lemma holds_values_initial :
  holds_values T_throws (∅ : gmap nat Z) ([] : list (event Args)).
Proof.
  split; [| reflexivity].
  intros a p Ha. rewrite lookup_empty in Ha. discriminate.
Qed.

Lemma holds_values_allocate ws tr k size p :
  holds_values T_throws ws tr ->
  holds_values T_throws ws (tr ++ [EAllocate k size p]).
Proof.
  intros [Hh Hd]. split.
  - intros a q Ha Hq. rewrite values_snoc. simpl. eauto.
  - rewrite destroys_snoc, Hd. reflexivity.
Qed.

Lemma holds_values_throw ws tr p (args : Args) :
  holds_values T_throws ws tr -> T_throws args = true ->
  holds_values T_throws ws (tr ++ [EConstruct p args]).
Proof.
  intros [Hh Hd] Ht. split.
  - intros a q Ha Hq. rewrite values_snoc. simpl. rewrite Ht. eauto.
  - rewrite destroys_snoc, Hd. reflexivity.
Qed.

Lemma holds_values_attach ws tr this p (args : Args) :
  holds_values T_throws ws tr -> T_throws args = false ->
  holds_values T_throws (<[this := p]> ws) (tr ++ [EConstruct p args]).
Proof.
  intros [Hh Hd] Ht. split.
  - intros a q Ha Hq. rewrite values_snoc. simpl. rewrite Ht.
    destruct (decide (a = this)) as [->|Hne].
    + rewrite lookup_insert_eq in Ha. inversion Ha; subst q.
      apply elem_of_union_l, elem_of_singleton. reflexivity.
    + rewrite lookup_insert_ne in Ha by congruence.
      apply elem_of_union_r. eauto.
  - rewrite destroys_snoc, Hd. reflexivity.
Qed.

Lemma holds_values_release ws tr this k p :
  holds_values T_throws ws tr -> unique_owner ws ->
  ws !! this = Some p -> p <> nullptr ->
  holds_values T_throws (<[this := nullptr]> ws)
    ((tr ++ [EDestroy p]) ++ [EFree k p]).
Proof.
  intros [Hh Hd] Hu Hthis Hp. split.
  - intros a q Ha Hq. rewrite !values_snoc. simpl.
    destruct (decide (a = this)) as [->|Hne];
      [rewrite lookup_insert_eq in Ha; congruence |].
    rewrite lookup_insert_ne in Ha by congruence.
    apply elem_of_difference. split; [eauto |].
    intros Hin. apply elem_of_singleton in Hin. subst q.
    apply Hne. eapply Hu; eauto.
  - rewrite !destroys_snoc, Hd. simpl. rewrite andb_true_r.
    apply bool_decide_eq_true. eauto.
Qed.

Lemma holds_values_delete ws tr this :
  holds_values T_throws ws tr -> holds_values T_throws (delete this ws) tr.
Proof.
  intros [Hh Hd]. split; [| exact Hd].
  intros a q Ha Hq. apply lookup_delete_Some in Ha as [_ Ha]. eauto.
Qed.

Lemma holds_values_null ws tr this :
  holds_values T_throws ws tr ->
  holds_values T_throws (<[this := nullptr]> ws) tr.
Proof.
  intros [Hh Hd]. split; [| exact Hd].
  intros a q Ha Hq.
  destruct (decide (a = this)) as [->|Hne];
    [rewrite lookup_insert_eq in Ha; congruence |].
  rewrite lookup_insert_ne in Ha by congruence. eauto.
Qed.

Lemma holds_values_transfer ws tr this other q :
  holds_values T_throws ws tr -> ws !! other = Some q ->
  holds_values T_throws (<[other := nullptr]> (<[this := q]> ws)) tr.
Proof.
  intros [Hh Hd] Hother. split; [| exact Hd].
  intros a p Ha Hp.
  destruct (decide (a = other)) as [->|Hao];
    [rewrite lookup_insert_eq in Ha; congruence |].
  rewrite lookup_insert_ne in Ha by congruence.
  destruct (decide (a = this)) as [->|Hat].
  - rewrite lookup_insert_eq in Ha. inversion Ha; subst p. eauto.
  - rewrite lookup_insert_ne in Ha by congruence. eauto.
Qed.

Lemma holds_values_release_delete ws tr this k p :
  holds_values T_throws ws tr -> unique_owner ws ->
  ws !! this = Some p -> p <> nullptr ->
  holds_values T_throws (delete this ws)
    ((tr ++ [EDestroy p]) ++ [EFree k p]).
Proof.
  intros H Hu Hthis Hp.
  rewrite <- (delete_insert_eq ws this nullptr).
  apply holds_values_delete, holds_values_release; assumption.
Qed.

Lemma holds_values_release_transfer ws tr this other k p q :
  holds_values T_throws ws tr -> unique_owner ws ->
  ws !! this = Some p -> p <> nullptr ->
  this <> other -> ws !! other = Some q ->
  holds_values T_throws (<[other := nullptr]> (<[this := q]> ws))
    ((tr ++ [EDestroy p]) ++ [EFree k p]).
Proof.
  intros H Hu Hthis Hp Hne Hother.
  rewrite <- (insert_insert_eq ws this q nullptr).
  apply holds_values_transfer.
  - apply holds_values_release; assumption.
  - rewrite lookup_insert_ne by exact Hne. exact Hother.
Qed.

(** The effects of a wrapper bound to one kind. *)
Lemma bound_to_snoc (Type_ : AllocatorType) (sizeof_T : Z) tr (e : event Args) :
  Forall (bound_to Type_ sizeof_T) tr -> bound_to Type_ sizeof_T e ->
  Forall (bound_to Type_ sizeof_T) (tr ++ [e]).
Proof. intros H He. apply Forall_app. split; [exact H | constructor; [exact He | constructor]]. Qed.

End ValueProperties.

Create HintDb values_db.

#[export] Hint Resolve owned_unique holds_values_allocate holds_values_throw
  holds_values_attach holds_values_release holds_values_delete
  holds_values_null holds_values_transfer holds_values_release_delete
  holds_values_release_transfer : values_db.

Section ProgramInvariants.
Import AllocatedPtr.
Context {Mgr Args : Type}.
Variable mm_Allocate : AllocatorType -> Z -> Z -> Mgr -> Z * Mgr.
Variable mm_Free : AllocatorType -> Z -> Mgr -> Mgr.
Variable T_throws : Args -> bool.
Variable sizeof_T : Z.
Variable Type_ : AllocatorType.
Implicit Types (w : world Mgr Args) (this other : nat) (args : Args).

Ltac unfold_members :=
  unfold perform, MakeAllocated, operator_arrow, operator_star,
    AllocatedPtr_default, AllocatedPtr_init,
    AllocatedPtr_destructor, AllocatedPtr_move, move_assign, Reset_args,
    Reset, Get, operator_bool, construction,
    construct_T, destroy_T, manager_Allocate, manager_Free, end_lifetime,
    not_alive, write_m_ptr, read_m_ptr, emit, bind, ret.

Ltac case_split :=
  repeat (simpl;
    match goal with
    | |- context [wrappers ?w !! ?k] => destruct (wrappers w !! k) eqn:?
    | |- context [decide ?P] => destruct (decide P)
    | |- context [mm_Allocate ?a ?b ?c ?d] =>
        destruct (mm_Allocate a b c d) eqn:?
    | |- context [T_throws ?a] => destruct (T_throws a) eqn:?
    end); simpl.

Local Notation "'run''" :=
  (run mm_Allocate mm_Free T_throws sizeof_T Type_).
Local Notation "'perform''" :=
  (perform mm_Allocate mm_Free T_throws sizeof_T Type_).

Lemma perform_holds_values (o : operation) w :
  owned (wrappers w) (effects w) ->
  holds_values T_throws (wrappers w) (effects w) ->
  (perform' o w).1 <> Undefined ->
  holds_values T_throws (wrappers (perform' o w).2) (effects (perform' o w).2).
Proof.
  destruct o; unfold_members; simpl; case_split; intros Ho Hw Hdef;
    try (exfalso; apply Hdef; reflexivity); subst; eauto 8 with values_db.
Qed.

Lemma run_holds_values (ops : list operation) : forall w,
  owned (wrappers w) (effects w) ->
  holds_values T_throws (wrappers w) (effects w) ->
  (run' ops w).1 <> Undefined ->
  fresh_allocations (effects (run' ops w).2) = true ->
  holds_values T_throws (wrappers (run' ops w).2) (effects (run' ops w).2).
Proof.
  induction ops as [|o ops IH]; intros w Ho Hw Hdef Hfresh; simpl in *.
  - exact Hw.
  - pose proof (perform_holds_values o w Ho Hw) as Hv.
    pose proof (perform_owned mm_Allocate mm_Free T_throws sizeof_T Type_
                  o w Ho) as Hown.
    pose proof (run_prefix mm_Allocate mm_Free T_throws sizeof_T Type_
                  ops (perform' o w).2) as Hpre.
    destruct (perform' o w) as [[u| |] w'] eqn:E; simpl in *.
    + apply IH; try assumption.
      * apply Hown; [discriminate | eapply fresh_prefix; eassumption].
      * apply Hv. discriminate.
    + apply IH; try assumption.
      * apply Hown; [discriminate | eapply fresh_prefix; eassumption].
      * apply Hv. discriminate.
    + exfalso. apply Hdef. reflexivity.
Qed.

Lemma perform_bound_to (o : operation) w :
  Forall (bound_to Type_ sizeof_T) (effects w) ->
  Forall (bound_to Type_ sizeof_T) (effects (perform' o w).2).
Proof.
  destruct o; unfold_members; case_split; intros Hw;
    repeat (apply bound_to_snoc; [| simpl; auto]); exact Hw.
Qed.

Lemma perform_frame (o : operation) w a :
  a ∉ operands o ->
  wrappers (perform' o w).2 !! a = wrappers w !! a.
Proof.
  destruct o; simpl; intros Ha;
    repeat (apply not_elem_of_cons in Ha as [? Ha]);
    unfold_members;
    repeat (simpl;
      match goal with
      | |- context [wrappers ?v !! ?k] =>
          is_var v; lazymatch k with a => fail | _ => idtac end;
          destruct (wrappers v !! k) eqn:?
      | |- context [decide ?P] => destruct (decide P)
      | |- context [mm_Allocate ?x ?y ?z ?m] =>
          destruct (mm_Allocate x y z m) eqn:?
      | |- context [T_throws ?x] => destruct (T_throws x) eqn:?
      end); simpl;
    rewrite ?lookup_insert_ne, ?lookup_delete_ne by congruence; reflexivity.
Qed.


Lemma run_bound_to (ops : list operation) : forall w,
  Forall (bound_to Type_ sizeof_T) (effects w) ->
  Forall (bound_to Type_ sizeof_T) (effects (run' ops w).2).
Proof.
  induction ops as [|o ops IH]; intros w Hw; simpl.
  - exact Hw.
  - pose proof (perform_bound_to o w Hw) as Ho.
    destruct (perform' o w) as [[u| |] w']; simpl in *;
      [apply IH, Ho | apply IH, Ho | exact Ho].
Qed.

(** X1. In every program of wrapper operations, the wrappers only ever ask
    the manager for [sizeof(T)] bytes from their own allocator kind, and
    only ever give storage back to that kind. *)
Theorem effects_bound_to_kind (m : Mgr) (ops : list operation) :
  Forall (bound_to Type_ sizeof_T) (effects (run' ops (mk_world m ∅ [])).2).
Proof. apply run_bound_to. constructor. Qed.

(** X2. An operation changes only the wrappers it is applied to: a wrapper
    that no operation of a program names holds at the end what it held at
    the start. *)
Theorem other_wrappers_untouched (ops : list operation) : forall w a,
  Forall (fun o => a ∉ operands o) ops ->
  wrappers (run' ops w).2 !! a = wrappers w !! a.
Proof.
  induction ops as [|o ops IH]; intros w a Hops; simpl.
  - reflexivity.
  - inversion Hops as [|? ? Ho Hrest]; subst.
    pose proof (perform_frame o w a Ho) as Hf.
    destruct (perform' o w) as [[u| |] w']; simpl in *.
    + rewrite (IH w' a Hrest). exact Hf.
    + rewrite (IH w' a Hrest). exact Hf.
    + exact Hf.
Qed.

(** X3. No leak without exceptions: when a program with defined behaviour
    in which no constructor threw ends with no wrapper holding a value,
    every address the manager handed out has been given back. *)
Theorem no_leak_without_exceptions (m : Mgr) (ops : list operation) :
  (run' ops (mk_world m ∅ [])).1 <> Undefined ->
  constructions_returned T_throws (effects (run' ops (mk_world m ∅ [])).2)
    = true ->
  (forall a p, wrappers (run' ops (mk_world m ∅ [])).2 !! a = Some p ->
               p = nullptr) ->
  issued (effects (run' ops (mk_world m ∅ [])).2) ∖ {[nullptr]} = ∅.
Proof.
  intros Hdef Hret Hvacant.
  apply elem_of_equiv_empty_L. intros p Hp.
  apply elem_of_difference in Hp as [Hp Hnz].
  assert (p <> nullptr) as Hnz' by (intros ->; apply Hnz, elem_of_singleton; reflexivity).
  destruct (run_accounted mm_Allocate mm_Free T_throws sizeof_T Type_ ops
              (mk_world m ∅ []) accounted_initial Hdef Hret p Hp Hnz')
    as [a Ha].
  apply Hnz'. exact (Hvacant a p Ha).
Qed.

(** X4. In every program with defined behaviour on a manager that does not
    hand out an address still in use, every address a wrapper holds is the
    address of a value of [T] whose constructor returned and whose
    destructor has not run, and the destructor of [T] has only been called
    on such values: never on storage without a value, never twice on one
    value. *)
Theorem destructor_runs_on_values (m : Mgr) (ops : list operation) :
  (run' ops (mk_world m ∅ [])).1 <> Undefined ->
  fresh_allocations (effects (run' ops (mk_world m ∅ [])).2) = true ->
  holds_values T_throws (wrappers (run' ops (mk_world m ∅ [])).2)
    (effects (run' ops (mk_world m ∅ [])).2).
Proof.
  intros Hdef Hfresh.
  apply run_holds_values; try assumption.
  - apply owned_initial.
  - apply holds_values_initial.
Qed.

End ProgramInvariants.

(** ** Laws of the member functions of AllocatedPtr *)

Section WrapperLaws.
Import AllocatedPtr.
Context {Mgr Args : Type}.
Variable mm_Allocate : AllocatorType -> Z -> Z -> Mgr -> Z * Mgr.
Variable mm_Free : AllocatorType -> Z -> Mgr -> Mgr.
Variable T_throws : Args -> bool.
Variable sizeof_T : Z.
Variable Type_ : AllocatorType.
Implicit Types (w : world Mgr Args) (this other : nat) (args : Args).

Ltac unfold_members :=
  unfold perform, MakeAllocated, operator_arrow, operator_star,
    AllocatedPtr_default, AllocatedPtr_init,
    AllocatedPtr_destructor, AllocatedPtr_move, move_assign, Reset_args,
    Reset, Get, operator_bool, construction,
    construct_T, destroy_T, manager_Allocate, manager_Free, end_lifetime,
    not_alive, write_m_ptr, read_m_ptr, emit, bind, ret.

Ltac case_split :=
  repeat (simpl;
    match goal with
    | |- context [wrappers ?w !! ?k] => destruct (wrappers w !! k) eqn:?
    | |- context [decide ?P] => destruct (decide P)
    | |- context [mm_Allocate ?a ?b ?c ?d] =>
        destruct (mm_Allocate a b c d) eqn:?
    | |- context [T_throws ?a] => destruct (T_throws a) eqn:?
    end); simpl.

Local Notation "'run''" :=
  (run mm_Allocate mm_Free T_throws sizeof_T Type_).
Local Notation "'perform''" :=
  (perform mm_Allocate mm_Free T_throws sizeof_T Type_).

Lemma Reset_dead w this :
  wrappers w !! this = None ->
  Reset mm_Free Type_ this w = (Undefined, w).
Proof. intros H. unfold_members. rewrite H. reflexivity. Qed.

Lemma destructor_dead w this :
  wrappers w !! this = None ->
  AllocatedPtr_destructor mm_Free Type_ this w = (Undefined, w).
Proof. intros H. unfold_members. rewrite H. reflexivity. Qed.

(** X5. [Reset()] is idempotent: a second [Reset()] changes nothing and
    calls neither the destructor of [T] nor the manager. *)
Theorem Reset_twice w this :
  run mm_Allocate mm_Free T_throws sizeof_T Type_
    [OpReset this; OpReset this] w
  = run mm_Allocate mm_Free T_throws sizeof_T Type_ [OpReset this] w.
Proof.
  simpl. destruct (wrappers w !! this) as [p|] eqn:Hthis.
  - destruct (decide (p = nullptr)) as [->|Hp].
    + rewrite (Reset_empty mm_Free Type_ w this Hthis).
      rewrite (Reset_empty mm_Free Type_ w this Hthis). reflexivity.
    + rewrite (Reset_held mm_Free Type_ w this p Hthis Hp).
      rewrite Reset_empty; [reflexivity | simpl; apply lookup_insert_eq].
  - rewrite (Reset_dead w this Hthis). reflexivity.
Qed.

(** X6. Destroying a wrapper after [Reset()] is the same as destroying it
    at once: the value is destroyed and its storage freed once, by
    whichever comes first. *)
Theorem Reset_then_destructor w this :
  run mm_Allocate mm_Free T_throws sizeof_T Type_
    [OpReset this; OpDestructor this] w
  = run mm_Allocate mm_Free T_throws sizeof_T Type_ [OpDestructor this] w.
Proof.
  simpl. destruct (wrappers w !! this) as [p|] eqn:Hthis.
  - destruct (decide (p = nullptr)) as [->|Hp].
    + rewrite (Reset_empty mm_Free Type_ w this Hthis). reflexivity.
    + rewrite (Reset_held mm_Free Type_ w this p Hthis Hp).
      rewrite (destructor_held mm_Free Type_ w this p Hthis Hp).
      rewrite destructor_empty by (simpl; apply lookup_insert_eq).
      simpl. rewrite delete_insert_eq. reflexivity.
  - rewrite (Reset_dead w this Hthis), (destructor_dead w this Hthis).
    reflexivity.
Qed.

(** X7. Moving a wrapper into a new one and destroying both is the same
    as destroying the original: the moved-from wrapper releases nothing
    and the value is released once, by the destination. *)
Theorem move_then_destroy_both w this other :
  wrappers w !! this = None ->
  run mm_Allocate mm_Free T_throws sizeof_T Type_
    [OpMove this other; OpDestructor other; OpDestructor this] w
  = run mm_Allocate mm_Free T_throws sizeof_T Type_ [OpDestructor other] w.
Proof.
  intros Hthis. simpl.
  destruct (wrappers w !! other) as [q|] eqn:Hother.
  - assert (this <> other) as Hne by (intros ->; congruence).
    rewrite (move_constructor w this other q Hthis Hother).
    rewrite destructor_empty by (simpl; apply lookup_insert_eq). simpl.
    assert (delete this
              (delete other (<[other:=nullptr]> (<[this:=q]> (wrappers w))))
            = delete other (wrappers w)) as Hmap.
    { apply map_eq. intros a.
      destruct (decide (a = this)) as [->|Hat].
      - rewrite lookup_delete_eq, lookup_delete_ne by congruence.
        symmetry. exact Hthis.
      - rewrite lookup_delete_ne by congruence.
        destruct (decide (a = other)) as [->|Hao].
        + rewrite !lookup_delete_eq. reflexivity.
        + rewrite !lookup_delete_ne by congruence.
          rewrite !lookup_insert_ne by congruence. reflexivity. }
    destruct (decide (q = nullptr)) as [->|Hq].
    + rewrite destructor_empty.
      2:{ simpl. rewrite lookup_delete_ne by congruence.
          rewrite lookup_insert_ne by congruence. apply lookup_insert_eq. }
      rewrite (destructor_empty mm_Free Type_ w other Hother).
      simpl. rewrite Hmap. reflexivity.
    + rewrite (destructor_held mm_Free Type_ _ this q).
      2:{ simpl. rewrite lookup_delete_ne by congruence.
          rewrite lookup_insert_ne by congruence. apply lookup_insert_eq. }
      2:{ exact Hq. }
      rewrite (destructor_held mm_Free Type_ w other q Hother Hq).
      simpl. rewrite Hmap. reflexivity.
  - rewrite (destructor_dead w other Hother).
    unfold_members. rewrite Hthis. simpl. rewrite Hother. reflexivity.
Qed.

(** X8. Move-assigning a wrapper to an empty one and back restores the
    state exactly, with no call to the destructor of [T] or to the
    manager. *)
Theorem move_assign_round_trip w this other p :
  this <> other ->
  wrappers w !! this = Some p -> wrappers w !! other = Some nullptr ->
  run mm_Allocate mm_Free T_throws sizeof_T Type_
    [OpMoveAssign other this; OpMoveAssign this other] w
  = (Returned tt, w).
Proof.
  intros Hne Hthis Hother. simpl.
  rewrite (move_assign_empty mm_Free Type_ w other this p) by congruence.
  rewrite (move_assign_empty mm_Free Type_ _ this other p).
  2:{ exact Hne. }
  2:{ simpl. apply lookup_insert_eq. }
  2:{ simpl. rewrite lookup_insert_ne by congruence. apply lookup_insert_eq. }
  simpl. destruct w as [m ws tr]. simpl in *. f_equal. f_equal.
  apply map_eq. intros a.
  destruct (decide (a = other)) as [->|Hao].
  - rewrite lookup_insert_eq. congruence.
  - rewrite lookup_insert_ne by congruence.
    destruct (decide (a = this)) as [->|Hat].
    + rewrite lookup_insert_eq. congruence.
    + rewrite !lookup_insert_ne by congruence. reflexivity.
Qed.


(** X9. [MakeAllocated] without arguments selects the default constructor:
    it returns an empty wrapper and neither calls the manager nor
    constructs a [T]; [Get()] is [nullptr], [operator bool] is false and
    [operator*] on the result is undefined. *)
Theorem MakeAllocated_without_arguments w this :
  wrappers w !! this = None ->
  let r := MakeAllocated mm_Allocate T_throws sizeof_T Type_ this None w in
  r.1 = Returned tt
  /\ manager r.2 = manager w
  /\ effects r.2 = effects w
  /\ Get this r.2 = (Returned nullptr, r.2)
  /\ operator_bool this r.2 = (Returned false, r.2)
  /\ operator_star this r.2 = (Undefined, r.2).
Proof.
  intros Hthis. unfold_members. rewrite Hthis. simpl.
  rewrite lookup_insert_eq. simpl. repeat split.
Qed.

(** X10. [MakeAllocated] with arguments, when the manager has storage and
    the constructor returns: one [Allocate] of [sizeof(T)] bytes from the
    bound kind, one construction at the address it returned, and the
    wrapper holds that address: [Get()], [operator->] and [operator*] give
    it and [operator bool] is true. *)
Theorem MakeAllocated_with_arguments w this args storage m :
  wrappers w !! this = None ->
  mm_Allocate Type_ sizeof_T 0 (manager w) = (storage, m) ->
  storage <> nullptr ->
  T_throws args = false ->
  let r := MakeAllocated mm_Allocate T_throws sizeof_T Type_ this (Some args) w in
  r.1 = Returned tt
  /\ manager r.2 = m
  /\ effects r.2
     = effects w ++ [EAllocate Type_ sizeof_T storage; EConstruct storage args]
  /\ Get this r.2 = (Returned storage, r.2)
  /\ operator_arrow this r.2 = (Returned storage, r.2)
  /\ operator_star this r.2 = (Returned storage, r.2)
  /\ operator_bool this r.2 = (Returned true, r.2).
Proof.
  intros Hthis Halloc Hnz Hthrows.
  unfold MakeAllocated, AllocatedPtr_init, bind, not_alive. rewrite Hthis.
  rewrite (construction_returns mm_Allocate T_throws sizeof_T Type_
             w this args storage m Halloc Hnz Hthrows).
  unfold_members. simpl. rewrite lookup_insert_eq. simpl.
  destruct (decide (storage = nullptr)); [contradiction |].
  rewrite bool_decide_eq_true_2 by exact Hnz.
  rewrite <- app_assoc. repeat split.
Qed.

(** X11. The result of [Allocate] is not checked.  When the manager
    returns [nullptr], [AllocatedPtr(args...)] goes on to construct at the
    null address: undefined behaviour, after the [Allocate] call and
    without a constructor call on storage.  In [Reset(args...)] this
    happens after the held value has been destroyed and freed: the wrapper
    is left empty. *)
Theorem allocation_failure_is_unchecked :
  (forall w this args m,
      wrappers w !! this = None ->
      mm_Allocate Type_ sizeof_T 0 (manager w) = (nullptr, m) ->
      AllocatedPtr_init mm_Allocate T_throws sizeof_T Type_ this args w
      = (Undefined,
         mk_world m (wrappers w)
           (effects w ++ [EAllocate Type_ sizeof_T nullptr])))
  /\ (forall w this args p m,
      wrappers w !! this = Some p -> p <> nullptr ->
      mm_Allocate Type_ sizeof_T 0 (mm_Free Type_ p (manager w))
        = (nullptr, m) ->
      Reset_args mm_Allocate mm_Free T_throws sizeof_T Type_ this args w
      = (Undefined,
         mk_world m (<[this := nullptr]> (wrappers w))
           (effects w
              ++ [EDestroy p; EFree Type_ p;
                  EAllocate Type_ sizeof_T nullptr]))).
Proof.
  split.
  - intros w this args m Hthis Halloc.
    unfold_members. rewrite Hthis. simpl. rewrite Halloc. simpl.
    reflexivity.
  - intros w this args p m Hthis Hp Halloc.
    unfold Reset_args, bind.
    rewrite (Reset_held mm_Free Type_ w this p Hthis Hp).
    unfold_members. simpl. rewrite Halloc. simpl.
    rewrite <- !app_assoc. reflexivity.
Qed.

(** X12. Default construction followed by [Reset(args...)] against the
    initializing constructor: the same outcome, the same manager state and
    the same effects; the same wrappers when the constructor returns, and
    otherwise one difference: the default-constructed wrapper is alive and
    empty where the initializing constructor leaves no wrapper. *)
Theorem default_then_Reset_args w this args :
  wrappers w !! this = None ->
  let a :=
    bind (AllocatedPtr_default this)
         (fun _ => Reset_args mm_Allocate mm_Free T_throws sizeof_T Type_
                     this args) w in
  let b := AllocatedPtr_init mm_Allocate T_throws sizeof_T Type_ this args w in
  a.1 = b.1
  /\ manager a.2 = manager b.2
  /\ effects a.2 = effects b.2
  /\ (b.1 = Returned tt -> wrappers a.2 = wrappers b.2)
  /\ (b.1 <> Returned tt -> wrappers a.2 = <[this := nullptr]> (wrappers b.2)).
Proof.
  intros Hthis. unfold_members. rewrite Hthis. simpl.
  rewrite lookup_insert_eq. simpl.
  destruct (mm_Allocate Type_ sizeof_T 0 (manager w)) as [storage m]. simpl.
  destruct (decide (storage = nullptr)); simpl.
  - split; [reflexivity | split; [reflexivity | split; [reflexivity |]]].
    split; intros H; [discriminate H | reflexivity].
  - destruct (T_throws args); simpl.
    + split; [reflexivity | split; [reflexivity | split; [reflexivity |]]].
      split; intros H; [discriminate H | reflexivity].
    + split; [reflexivity | split; [reflexivity | split; [reflexivity |]]].
      split; intros H;
        [apply insert_insert_eq | exfalso; apply H; reflexivity].
Qed.

End WrapperLaws.

(** ** The sizes a pool reports *)

(** X13. In a pool that keeps [freeBlocks <= blockCount] and whose byte
    size fits [size_t], [GetAllocatedSize()] is the exact byte count of the
    blocks in use, between 0 and [GetTotalSize()]; for a positive block
    size it is 0 exactly when every block is free and [GetTotalSize()]
    exactly when none is. *)
Theorem pool_sizes_in_bounds (a : PoolAllocator.t) :
  PoolAllocator.in_range a ->
  PoolAllocator.invariant a ->
  PoolAllocator.m_blockCount a * PoolAllocator.m_blockSize a < size_t_modulus ->
  PoolAllocator.GetAllocatedSize a
    = (PoolAllocator.m_blockCount a - PoolAllocator.m_freeBlocks a)
      * PoolAllocator.m_blockSize a
  /\ 0 <= PoolAllocator.GetAllocatedSize a <= PoolAllocator.GetTotalSize a
  /\ (0 < PoolAllocator.m_blockSize a ->
      (PoolAllocator.GetAllocatedSize a = 0
       <-> PoolAllocator.m_freeBlocks a = PoolAllocator.m_blockCount a)
      /\ (PoolAllocator.GetAllocatedSize a = PoolAllocator.GetTotalSize a
          <-> PoolAllocator.m_freeBlocks a = 0)).
Proof.
  intros (Hbs & Hbc & Hfb) Hinv Hfit.
  unfold PoolAllocator.invariant in Hinv. unfold is_size_t in *.
  unfold PoolAllocator.GetAllocatedSize, PoolAllocator.GetTotalSize.
  rewrite (wrap_small (PoolAllocator.m_blockCount a - PoolAllocator.m_freeBlocks a))
    by (unfold is_size_t; lia).
  rewrite !wrap_small by (unfold is_size_t; nia).
  split; [reflexivity |]. split; [nia |].
  intros Hpos. split; split; intros H; nia.
Qed.

(** X14. The subtraction in [GetAllocatedSize()] is unsigned: once
    [freeBlocks] exceeds [blockCount] (a block freed twice), the reported
    size wraps around to [2^64] minus the excess bytes, which is more than
    [GetTotalSize()]. *)
Theorem pool_allocated_size_wraps (a : PoolAllocator.t) :
  PoolAllocator.in_range a ->
  PoolAllocator.m_blockCount a < PoolAllocator.m_freeBlocks a ->
  0 < PoolAllocator.m_blockSize a ->
  PoolAllocator.m_freeBlocks a * PoolAllocator.m_blockSize a < size_t_modulus ->
  PoolAllocator.GetAllocatedSize a
    = size_t_modulus
      - (PoolAllocator.m_freeBlocks a - PoolAllocator.m_blockCount a)
        * PoolAllocator.m_blockSize a
  /\ PoolAllocator.GetTotalSize a < PoolAllocator.GetAllocatedSize a.
Proof.
  intros (Hbs & Hbc & Hfb) Hlt Hpos Hfit. unfold is_size_t in *.
  assert (0 < size_t_modulus) as HM by reflexivity.
  assert (PoolAllocator.GetAllocatedSize a
          = size_t_modulus
            - (PoolAllocator.m_freeBlocks a - PoolAllocator.m_blockCount a)
              * PoolAllocator.m_blockSize a) as Halloc.
  { unfold PoolAllocator.GetAllocatedSize.
    rewrite wrap_mul_l. unfold wrap.
    symmetry. apply (Z.mod_unique _ _ (-1)); [left; nia | ring]. }
  split; [exact Halloc |].
  rewrite Halloc. unfold PoolAllocator.GetTotalSize.
  rewrite wrap_small by (unfold is_size_t; nia). nia.
Qed.

(** ** The concrete configuration, again *)

Lemma other_wrappers_untouched_witness :
  AllocatedPtr.wrappers
    (AllocatedPtr.run Demo.mm_Allocate Demo.mm_Free Demo.T_throws
       Demo.sizeof_T Pool
       [AllocatedPtr.OpReset 2%nat; AllocatedPtr.OpDestructor 2%nat]
       Demo.world1).2 !! 1%nat
  = AllocatedPtr.wrappers Demo.world1 !! 1%nat.
Proof.
  apply (other_wrappers_untouched Demo.mm_Allocate Demo.mm_Free Demo.T_throws
           Demo.sizeof_T Pool
           [AllocatedPtr.OpReset 2%nat; AllocatedPtr.OpDestructor 2%nat]
           Demo.world1 1%nat).
  constructor; [| constructor; [| constructor]];
    simpl; intros H; apply list_elem_of_singleton in H; discriminate H.
Defined.

Lemma no_leak_without_exceptions_witness :
  AllocatedPtr.issued
    (AllocatedPtr.effects
       (AllocatedPtr.run Demo.mm_Allocate Demo.mm_Free Demo.T_throws
          Demo.sizeof_T Pool Demo.closed_program Demo.world0).2)
    ∖ {[nullptr]} = ∅.
Proof.
  apply (no_leak_without_exceptions Demo.mm_Allocate Demo.mm_Free
           Demo.T_throws Demo.sizeof_T Pool Demo.manager Demo.closed_program).
  - vm_compute. discriminate.
  - vm_compute. reflexivity.
  - intros a p Hp.
    assert (AllocatedPtr.wrappers
              (AllocatedPtr.run Demo.mm_Allocate Demo.mm_Free Demo.T_throws
                 Demo.sizeof_T Pool Demo.closed_program
                 (AllocatedPtr.mk_world Demo.manager ∅ [])).2 = ∅) as E
      by (vm_compute; reflexivity).
    rewrite E, lookup_empty in Hp. discriminate Hp.
Defined.

Lemma destructor_runs_on_values_witness :
  AllocatedPtr.holds_values Demo.T_throws
    (AllocatedPtr.wrappers
       (AllocatedPtr.run Demo.mm_Allocate Demo.mm_Free Demo.T_throws
          Demo.sizeof_T Pool Demo.program Demo.world0).2)
    (AllocatedPtr.effects
       (AllocatedPtr.run Demo.mm_Allocate Demo.mm_Free Demo.T_throws
          Demo.sizeof_T Pool Demo.program Demo.world0).2).
Proof.
  apply (destructor_runs_on_values Demo.mm_Allocate Demo.mm_Free
           Demo.T_throws Demo.sizeof_T Pool Demo.manager Demo.program).
  - vm_compute. discriminate.
  - vm_compute. reflexivity.
Defined.

Lemma move_then_destroy_both_witness :
  AllocatedPtr.run Demo.mm_Allocate Demo.mm_Free Demo.T_throws Demo.sizeof_T
    Pool
    [AllocatedPtr.OpMove 3%nat 2%nat; AllocatedPtr.OpDestructor 2%nat;
     AllocatedPtr.OpDestructor 3%nat] Demo.world1
  = AllocatedPtr.run Demo.mm_Allocate Demo.mm_Free Demo.T_throws
      Demo.sizeof_T Pool [AllocatedPtr.OpDestructor 2%nat] Demo.world1.
Proof.
  apply (move_then_destroy_both Demo.mm_Allocate Demo.mm_Free Demo.T_throws
           Demo.sizeof_T Pool Demo.world1 3%nat 2%nat).
  vm_compute. reflexivity.
Defined.

Lemma move_assign_round_trip_witness :
  AllocatedPtr.run Demo.mm_Allocate Demo.mm_Free Demo.T_throws Demo.sizeof_T
    Pool
    [AllocatedPtr.OpMoveAssign 1%nat 2%nat; AllocatedPtr.OpMoveAssign 2%nat 1%nat]
    Demo.world1
  = (AllocatedPtr.Returned tt, Demo.world1).
Proof.
  apply (move_assign_round_trip Demo.mm_Allocate Demo.mm_Free Demo.T_throws
           Demo.sizeof_T Pool Demo.world1 2%nat 1%nat 4096).
  - discriminate.
  - vm_compute. reflexivity.
  - vm_compute. reflexivity.
Defined.

Lemma MakeAllocated_without_arguments_witness :
  let r :=
    AllocatedPtr.MakeAllocated Demo.mm_Allocate Demo.T_throws Demo.sizeof_T
      Pool 1%nat None Demo.world0 in
  r.1 = AllocatedPtr.Returned tt
  /\ AllocatedPtr.manager r.2 = AllocatedPtr.manager Demo.world0
  /\ AllocatedPtr.effects r.2 = AllocatedPtr.effects Demo.world0
  /\ AllocatedPtr.Get 1%nat r.2 = (AllocatedPtr.Returned nullptr, r.2)
  /\ AllocatedPtr.operator_bool 1%nat r.2 = (AllocatedPtr.Returned false, r.2)
  /\ AllocatedPtr.operator_star 1%nat r.2 = (AllocatedPtr.Undefined, r.2).
Proof.
  apply (MakeAllocated_without_arguments Demo.mm_Allocate Demo.T_throws
           Demo.sizeof_T Pool Demo.world0 1%nat).
  reflexivity.
Defined.

Lemma MakeAllocated_with_arguments_witness :
  let r :=
    AllocatedPtr.MakeAllocated Demo.mm_Allocate Demo.T_throws Demo.sizeof_T
      Pool 1%nat (Some false) Demo.world0 in
  r.1 = AllocatedPtr.Returned tt
  /\ AllocatedPtr.manager r.2
     = (Demo.mm_Allocate Pool Demo.sizeof_T 0
          (AllocatedPtr.manager Demo.world0)).2
  /\ AllocatedPtr.effects r.2
     = AllocatedPtr.effects Demo.world0
         ++ [AllocatedPtr.EAllocate Pool Demo.sizeof_T 4096;
             AllocatedPtr.EConstruct 4096 false]
  /\ AllocatedPtr.Get 1%nat r.2 = (AllocatedPtr.Returned 4096, r.2)
  /\ AllocatedPtr.operator_arrow 1%nat r.2 = (AllocatedPtr.Returned 4096, r.2)
  /\ AllocatedPtr.operator_star 1%nat r.2 = (AllocatedPtr.Returned 4096, r.2)
  /\ AllocatedPtr.operator_bool 1%nat r.2 = (AllocatedPtr.Returned true, r.2).
Proof.
  apply (MakeAllocated_with_arguments Demo.mm_Allocate Demo.T_throws
           Demo.sizeof_T Pool Demo.world0 1%nat false 4096).
  - reflexivity.
  - rewrite (surjective_pairing
               (Demo.mm_Allocate Pool Demo.sizeof_T 0
                  (AllocatedPtr.manager Demo.world0))) at 1.
    f_equal.
  - discriminate.
  - reflexivity.
Defined.

Lemma allocation_failure_is_unchecked_witness :
  AllocatedPtr.AllocatedPtr_init Demo.mm_Allocate Demo.T_throws 100 Pool
    1%nat false Demo.world0
  = (AllocatedPtr.Undefined,
     AllocatedPtr.mk_world
       (Demo.mm_Allocate Pool 100 0 (AllocatedPtr.manager Demo.world0)).2
       (AllocatedPtr.wrappers Demo.world0)
       (AllocatedPtr.effects Demo.world0
          ++ [AllocatedPtr.EAllocate Pool 100 nullptr]))
  /\ AllocatedPtr.Reset_args Demo.mm_Allocate Demo.mm_Free Demo.T_throws 100
       Pool 2%nat false Demo.world1
     = (AllocatedPtr.Undefined,
        AllocatedPtr.mk_world
          (Demo.mm_Allocate Pool 100 0
             (Demo.mm_Free Pool 4096 (AllocatedPtr.manager Demo.world1))).2
          (<[2%nat := nullptr]> (AllocatedPtr.wrappers Demo.world1))
          (AllocatedPtr.effects Demo.world1
             ++ [AllocatedPtr.EDestroy 4096; AllocatedPtr.EFree Pool 4096;
                 AllocatedPtr.EAllocate Pool 100 nullptr])).
Proof.
  destruct (allocation_failure_is_unchecked Demo.mm_Allocate Demo.mm_Free
              Demo.T_throws 100 Pool) as [Hinit Hreset].
  split.
  - apply (Hinit Demo.world0 1%nat false).
    + reflexivity.
    + rewrite (surjective_pairing
                 (Demo.mm_Allocate Pool 100 0
                    (AllocatedPtr.manager Demo.world0))) at 1.
      f_equal.
  - apply (Hreset Demo.world1 2%nat false 4096).
    + vm_compute. reflexivity.
    + discriminate.
    + rewrite (surjective_pairing
                 (Demo.mm_Allocate Pool 100 0
                    (Demo.mm_Free Pool 4096
                       (AllocatedPtr.manager Demo.world1)))) at 1.
      f_equal.
Defined.

Lemma default_then_Reset_args_witness :
  let a :=
    AllocatedPtr.bind (AllocatedPtr.AllocatedPtr_default 1%nat)
      (fun _ => AllocatedPtr.Reset_args Demo.mm_Allocate Demo.mm_Free
                  Demo.T_throws Demo.sizeof_T Pool 1%nat true) Demo.world0 in
  let b :=
    AllocatedPtr.AllocatedPtr_init Demo.mm_Allocate Demo.T_throws
      Demo.sizeof_T Pool 1%nat true Demo.world0 in
  a.1 = b.1
  /\ AllocatedPtr.manager a.2 = AllocatedPtr.manager b.2
  /\ AllocatedPtr.effects a.2 = AllocatedPtr.effects b.2
  /\ AllocatedPtr.wrappers a.2
     = <[1%nat := nullptr]> (AllocatedPtr.wrappers b.2).
Proof.
  intros a b.
  destruct (default_then_Reset_args Demo.mm_Allocate Demo.mm_Free
              Demo.T_throws Demo.sizeof_T Pool Demo.world0 1%nat true)
    as (H1 & H2 & H3 & _ & H5).
  - reflexivity.
  - split; [exact H1 | split; [exact H2 | split; [exact H3 |]]].
    apply H5. vm_compute. discriminate.
Defined.

Lemma pool_sizes_in_bounds_witness :
  let a := PoolAllocator.mk 4096 64 4 1 [4096] true in
  PoolAllocator.GetAllocatedSize a
    = (PoolAllocator.m_blockCount a - PoolAllocator.m_freeBlocks a)
      * PoolAllocator.m_blockSize a
  /\ 0 <= PoolAllocator.GetAllocatedSize a <= PoolAllocator.GetTotalSize a
  /\ (PoolAllocator.GetAllocatedSize a = 0
      <-> PoolAllocator.m_freeBlocks a = PoolAllocator.m_blockCount a)
  /\ (PoolAllocator.GetAllocatedSize a = PoolAllocator.GetTotalSize a
      <-> PoolAllocator.m_freeBlocks a = 0).
Proof.
  intros a.
  destruct (pool_sizes_in_bounds (PoolAllocator.mk 4096 64 4 1 [4096] true))
    as (Hexact & Hbounds & Hends).
  - unfold PoolAllocator.in_range, is_size_t, size_t_modulus, size_t_bits;
      simpl; lia.
  - unfold PoolAllocator.invariant; simpl; lia.
  - vm_compute. reflexivity.
  - split; [exact Hexact | split; [exact Hbounds |]].
    apply Hends. simpl. lia.
Defined.

Lemma pool_allocated_size_wraps_witness :
  let a := PoolAllocator.mk 4096 64 4 5 [4096; 4096] true in
  PoolAllocator.GetAllocatedSize a
    = size_t_modulus
      - (PoolAllocator.m_freeBlocks a - PoolAllocator.m_blockCount a)
        * PoolAllocator.m_blockSize a
  /\ PoolAllocator.GetTotalSize a < PoolAllocator.GetAllocatedSize a.
Proof.
  apply (pool_allocated_size_wraps
           (PoolAllocator.mk 4096 64 4 5 [4096; 4096] true)).
  - unfold PoolAllocator.in_range, is_size_t, size_t_modulus, size_t_bits;
      simpl; lia.
  - simpl. lia.
  - simpl. lia.
  - vm_compute. reflexivity.
Defined.

(** A pool of four blocks reporting five free blocks: the allocated size
    reads as [2^64 - 64]. *)
Example pool_allocated_size_wraps_example :
  PoolAllocator.GetAllocatedSize
    (PoolAllocator.mk 4096 64 4 5 [4096; 4096] true)
  = 18446744073709551552
  /\ PoolAllocator.GetTotalSize
       (PoolAllocator.mk 4096 64 4 5 [4096; 4096] true) = 256.
Proof. split; reflexivity. Qed.
